(** * advancedDataTable: the data table service and the component state

    A shallow embedding of [dataTableService] (row selection, sorting,
    searching) and of the state handling of the [AdvancedDataTable]
    Lightning web component, with the properties of its specification.

    Layout: the JavaScript values the code works on ([Js]), the fields of
    the component ([State]), the service ([Service]), the handlers of the
    component ([Component]), the vocabulary of the properties, then the
    properties: search, normalization of the query, row selection,
    comparator and sort, visible window, reconciliation of the selection. *)

From Stdlib Require Import ZArith String Ascii List Bool Lia DecimalString.
From stdpp Require Import base option list strings.
From Equations Require Import Equations.

Set Warnings "-register-all".
Local Open Scope string_scope.
Local Open Scope list_scope.

(** ** JavaScript values *)

Module Js.

(** The values found in table rows and in events: JSON data plus
    [undefined].  Numbers are the integer-valued ones.  Property lists keep
    the insertion order of the object's own properties. *)
Inductive value : Type :=
| VUndefined
| VNull
| VBool (b : bool)
| VNum (n : Z)
| VStr (s : string)
| VArr (elems : list value)
| VObj (props : list (string * value)).

(** A row of the table is an object; it is represented by its own
    properties. *)
Definition row : Type := list (string * value).

Definition value_eq_dec : forall a b : value, {a = b} + {a <> b}.
Proof.
  fix IH 1. intros a b. decide equality.
  - apply bool_dec.
  - apply Z.eq_dec.
  - apply string_dec.
  - apply (List.list_eq_dec IH).
  - apply List.list_eq_dec. intros [k1 v1] [k2 v2].
    destruct (string_dec k1 k2); [|right; congruence].
    destruct (IH v1 v2); [left|right]; congruence.
Defined.

#[global] Instance value_eq : EqDecision value := value_eq_dec.

(** [a === b].  Exact on primitive values, which is what record
    identifiers are; structured values are compared by content. *)
Definition strict_equals (a b : value) : bool := bool_decide (a = b).

(** Exceptions, and computations that may throw. *)
Inductive error : Type := TypeError | SyntaxError.

Inductive result (A : Type) : Type :=
| Ok (a : A)
| Throw (e : error).
Arguments Ok {A} a.
Arguments Throw {A} e.

#[global] Instance result_ret : MRet result := @Ok.

#[global] Instance result_bind : MBind result :=
  fun A B (k : A -> result B) (m : result A) =>
    match m with
    | Ok a => k a
    | Throw e => Throw e
    end.

(** [typeof v] *)
Inductive js_type : Type := TUndefined | TObject | TBoolean | TNumber | TString.

Definition typeof (v : value) : js_type :=
  match v with
  | VUndefined => TUndefined
  | VNull => TObject
  | VBool _ => TBoolean
  | VNum _ => TNumber
  | VStr _ => TString
  | VArr _ => TObject
  | VObj _ => TObject
  end.

Definition js_type_eqb (a b : js_type) : bool :=
  match a, b with
  | TUndefined, TUndefined | TObject, TObject | TBoolean, TBoolean
  | TNumber, TNumber | TString, TString => true
  | _, _ => false
  end.

(** [v == null]: true of [null] and [undefined] only. *)
Definition is_nullish (v : value) : bool :=
  match v with
  | VUndefined | VNull => true
  | _ => false
  end.

(** Truthiness, as tested by [if], [!], [&&] and [?:]. *)
Definition truthy (v : value) : bool :=
  match v with
  | VUndefined | VNull => false
  | VBool b => b
  | VNum n => negb (n =? 0)%Z
  | VStr s => negb (s =? "")
  | VArr _ | VObj _ => true
  end.

(** Own property lookup [obj[key]] in a property list; an absent key
    reads as [undefined]. *)
Fixpoint own_prop (props : list (string * value)) (key : string) : value :=
  match props with
  | [] => VUndefined
  | (k, v) :: rest => if k =? key then v else own_prop rest key
  end.

(** A key that is the canonical decimal form of an array index. *)
Definition array_index (key : string) : option nat :=
  match NilZero.uint_of_string key with
  | Some u =>
      let n := Nat.of_uint u in
      if NilZero.string_of_uint (Nat.to_uint n) =? key then Some n else None
  | None => None
  end.

Definition char_at (s : string) (n : nat) : value :=
  match String.get n s with
  | Some c => VStr (String c "")
  | None => VUndefined
  end.

(** [v[key]] for a value that is not [null] or [undefined]: own data
    properties, the elements and [length] of arrays and strings.  Inherited
    methods are not data and are left out. *)
Definition get_prop (v : value) (key : string) : value :=
  match v with
  | VObj props => own_prop props key
  | VArr elems =>
      if key =? "length" then VNum (Z.of_nat (length elems))
      else match array_index key with
           | Some n => nth n elems VUndefined
           | None => VUndefined
           end
  | VStr s =>
      if key =? "length" then VNum (Z.of_nat (String.length s))
      else match array_index key with
           | Some n => char_at s n
           | None => VUndefined
           end
  | _ => VUndefined
  end.

(** [v.key], which throws a TypeError on [null] and [undefined]. *)
Definition get_member (v : value) (key : string) : result value :=
  if is_nullish v then Throw TypeError else Ok (get_prop v key).

(** *** Strings *)

(** [s.toLowerCase()], on the ASCII repertoire. *)
Definition lower_char (c : ascii) : ascii :=
  let n := nat_of_ascii c in
  if (65 <=? n)%nat && (n <=? 90)%nat then ascii_of_nat (n + 32) else c.

Fixpoint toLowerCase (s : string) : string :=
  match s with
  | EmptyString => EmptyString
  | String c r => String (lower_char c) (toLowerCase r)
  end.

(** [s.includes(sub)] *)
Fixpoint includes (s sub : string) : bool :=
  if String.prefix sub s then true
  else match s with
       | EmptyString => false
       | String _ r => includes r sub
       end.

(** [s.split(sep)] for a one-character separator. *)
Fixpoint split (sep : ascii) (s : string) : list string :=
  match s with
  | EmptyString => [EmptyString]
  | String c r =>
      if Ascii.eqb c sep then EmptyString :: split sep r
      else match split sep r with
           | [] => [String c EmptyString]
           | w :: ws => String c w :: ws
           end
  end.

(** [parts.join(sep)] *)
Fixpoint join (sep : string) (parts : list string) : string :=
  match parts with
  | [] => EmptyString
  | [p] => p
  | p :: rest => p +:+ sep +:+ join sep rest
  end.

(** The class [\s] of regular expressions, on the ASCII repertoire:
    tab, line feed, vertical tab, form feed, carriage return, space. *)
Definition is_space (c : ascii) : bool :=
  let n := nat_of_ascii c in
  ((9 <=? n)%nat && (n <=? 13)%nat) || (n =? 32)%nat.

(** [String(v)] *)
Fixpoint to_String (v : value) : string :=
  match v with
  | VUndefined => "undefined"
  | VNull => "null"
  | VBool true => "true"
  | VBool false => "false"
  | VNum n => NilZero.string_of_int (Z.to_int n)
  | VStr s => s
  | VArr elems =>
      join "," (map (fun e => if is_nullish e then "" else to_String e) elems)
  | VObj _ => "[object Object]"
  end.

(** [JSON.parse(JSON.stringify(v))] on a value stored in a property or an
    array: a property holding [undefined] is dropped, an element holding
    [undefined] becomes [null], everything else is rebuilt as it is. *)
Fixpoint json_clone (v : value) : value :=
  match v with
  | VUndefined => VNull
  | VArr elems => VArr (map json_clone elems)
  | VObj props =>
      VObj ((fix clone_props (ps : list (string * value)) :=
               match ps with
               | [] => []
               | (_, VUndefined) :: rest => clone_props rest
               | (k, w) :: rest => (k, json_clone w) :: clone_props rest
               end) props)
  | _ => v
  end.

Definition json_clone_row (r : row) : row :=
  match json_clone (VObj r) with
  | VObj props => props
  | _ => r
  end.

(** What the host supplies and the code only calls: the collation order of
    [localeCompare] (negative, zero or positive) and the text
    [JSON.stringify] produces for a structured value. *)
Class Host : Type := {
  localeCompare : string -> string -> Z;
  JSON_stringify : value -> string
}.

End Js.

Import Js.

(** ** The state of the component *)

Module State.

(** A [Set] of identifiers: its members in insertion order, each once. *)
Definition jsset : Type := list value.

Definition set_has (s : jsset) (v : value) : bool :=
  existsb (strict_equals v) s.

Definition set_add (s : jsset) (v : value) : jsset :=
  if set_has s v then s else s ++ [v].

Definition set_delete (s : jsset) (v : value) : jsset :=
  List.filter (fun x => negb (strict_equals x v)) s.

(** [new Set(iterable)] *)
Definition set_of (l : list value) : jsset := fold_left set_add l [].

(** The fields of [AdvancedDataTable] that its handlers and the service
    read or assign.  Datasets are held as the sequence of their rows. *)
Record component : Type := {
  isLazyLoading : bool;
  dataTableValue : list row;
  dataToShow : list row;
  selectedRowsArray : list value;
  selectedIds : list value;
  selectedRows : jsset;
  _tableData : list row;
  sortedBy : value;
  sortedDirection : value;
  searchValue : string;
  searchableFields : list string;
  selectedData : list row;
  selectedDataToShow : list row;
  selectedDataToShowBackup : list row;
  isReadonlyLoading : bool
}.

Definition set_isLazyLoading (x : bool) (c : component) : component :=
  {| isLazyLoading := x; dataTableValue := dataTableValue c;
     dataToShow := dataToShow c; selectedRowsArray := selectedRowsArray c;
     selectedIds := selectedIds c; selectedRows := selectedRows c;
     _tableData := _tableData c; sortedBy := sortedBy c;
     sortedDirection := sortedDirection c; searchValue := searchValue c;
     searchableFields := searchableFields c; selectedData := selectedData c;
     selectedDataToShow := selectedDataToShow c;
     selectedDataToShowBackup := selectedDataToShowBackup c;
     isReadonlyLoading := isReadonlyLoading c |}.

Definition set_dataTableValue (x : list row) (c : component) : component :=
  {| isLazyLoading := isLazyLoading c; dataTableValue := x;
     dataToShow := dataToShow c; selectedRowsArray := selectedRowsArray c;
     selectedIds := selectedIds c; selectedRows := selectedRows c;
     _tableData := _tableData c; sortedBy := sortedBy c;
     sortedDirection := sortedDirection c; searchValue := searchValue c;
     searchableFields := searchableFields c; selectedData := selectedData c;
     selectedDataToShow := selectedDataToShow c;
     selectedDataToShowBackup := selectedDataToShowBackup c;
     isReadonlyLoading := isReadonlyLoading c |}.

Definition set_dataToShow (x : list row) (c : component) : component :=
  {| isLazyLoading := isLazyLoading c; dataTableValue := dataTableValue c;
     dataToShow := x; selectedRowsArray := selectedRowsArray c;
     selectedIds := selectedIds c; selectedRows := selectedRows c;
     _tableData := _tableData c; sortedBy := sortedBy c;
     sortedDirection := sortedDirection c; searchValue := searchValue c;
     searchableFields := searchableFields c; selectedData := selectedData c;
     selectedDataToShow := selectedDataToShow c;
     selectedDataToShowBackup := selectedDataToShowBackup c;
     isReadonlyLoading := isReadonlyLoading c |}.

Definition set_selectedRowsArray (x : list value) (c : component) : component :=
  {| isLazyLoading := isLazyLoading c; dataTableValue := dataTableValue c;
     dataToShow := dataToShow c; selectedRowsArray := x;
     selectedIds := selectedIds c; selectedRows := selectedRows c;
     _tableData := _tableData c; sortedBy := sortedBy c;
     sortedDirection := sortedDirection c; searchValue := searchValue c;
     searchableFields := searchableFields c; selectedData := selectedData c;
     selectedDataToShow := selectedDataToShow c;
     selectedDataToShowBackup := selectedDataToShowBackup c;
     isReadonlyLoading := isReadonlyLoading c |}.

Definition set_selectedIds (x : list value) (c : component) : component :=
  {| isLazyLoading := isLazyLoading c; dataTableValue := dataTableValue c;
     dataToShow := dataToShow c; selectedRowsArray := selectedRowsArray c;
     selectedIds := x; selectedRows := selectedRows c;
     _tableData := _tableData c; sortedBy := sortedBy c;
     sortedDirection := sortedDirection c; searchValue := searchValue c;
     searchableFields := searchableFields c; selectedData := selectedData c;
     selectedDataToShow := selectedDataToShow c;
     selectedDataToShowBackup := selectedDataToShowBackup c;
     isReadonlyLoading := isReadonlyLoading c |}.

Definition set_selectedRows (x : jsset) (c : component) : component :=
  {| isLazyLoading := isLazyLoading c; dataTableValue := dataTableValue c;
     dataToShow := dataToShow c; selectedRowsArray := selectedRowsArray c;
     selectedIds := selectedIds c; selectedRows := x;
     _tableData := _tableData c; sortedBy := sortedBy c;
     sortedDirection := sortedDirection c; searchValue := searchValue c;
     searchableFields := searchableFields c; selectedData := selectedData c;
     selectedDataToShow := selectedDataToShow c;
     selectedDataToShowBackup := selectedDataToShowBackup c;
     isReadonlyLoading := isReadonlyLoading c |}.

Definition set_tableData_field (x : list row) (c : component) : component :=
  {| isLazyLoading := isLazyLoading c; dataTableValue := dataTableValue c;
     dataToShow := dataToShow c; selectedRowsArray := selectedRowsArray c;
     selectedIds := selectedIds c; selectedRows := selectedRows c;
     _tableData := x; sortedBy := sortedBy c;
     sortedDirection := sortedDirection c; searchValue := searchValue c;
     searchableFields := searchableFields c; selectedData := selectedData c;
     selectedDataToShow := selectedDataToShow c;
     selectedDataToShowBackup := selectedDataToShowBackup c;
     isReadonlyLoading := isReadonlyLoading c |}.

Definition set_sorted (by_ direction : value) (c : component) : component :=
  {| isLazyLoading := isLazyLoading c; dataTableValue := dataTableValue c;
     dataToShow := dataToShow c; selectedRowsArray := selectedRowsArray c;
     selectedIds := selectedIds c; selectedRows := selectedRows c;
     _tableData := _tableData c; sortedBy := by_;
     sortedDirection := direction; searchValue := searchValue c;
     searchableFields := searchableFields c; selectedData := selectedData c;
     selectedDataToShow := selectedDataToShow c;
     selectedDataToShowBackup := selectedDataToShowBackup c;
     isReadonlyLoading := isReadonlyLoading c |}.

Definition set_searchValue (x : string) (c : component) : component :=
  {| isLazyLoading := isLazyLoading c; dataTableValue := dataTableValue c;
     dataToShow := dataToShow c; selectedRowsArray := selectedRowsArray c;
     selectedIds := selectedIds c; selectedRows := selectedRows c;
     _tableData := _tableData c; sortedBy := sortedBy c;
     sortedDirection := sortedDirection c; searchValue := x;
     searchableFields := searchableFields c; selectedData := selectedData c;
     selectedDataToShow := selectedDataToShow c;
     selectedDataToShowBackup := selectedDataToShowBackup c;
     isReadonlyLoading := isReadonlyLoading c |}.

Definition set_searchableFields (x : list string) (c : component) : component :=
  {| isLazyLoading := isLazyLoading c; dataTableValue := dataTableValue c;
     dataToShow := dataToShow c; selectedRowsArray := selectedRowsArray c;
     selectedIds := selectedIds c; selectedRows := selectedRows c;
     _tableData := _tableData c; sortedBy := sortedBy c;
     sortedDirection := sortedDirection c; searchValue := searchValue c;
     searchableFields := x; selectedData := selectedData c;
     selectedDataToShow := selectedDataToShow c;
     selectedDataToShowBackup := selectedDataToShowBackup c;
     isReadonlyLoading := isReadonlyLoading c |}.

(** The three fields of the read-only table are assigned together. *)
Definition set_readonly (data shown backup : list row) (loading : bool)
    (c : component) : component :=
  {| isLazyLoading := isLazyLoading c; dataTableValue := dataTableValue c;
     dataToShow := dataToShow c; selectedRowsArray := selectedRowsArray c;
     selectedIds := selectedIds c; selectedRows := selectedRows c;
     _tableData := _tableData c; sortedBy := sortedBy c;
     sortedDirection := sortedDirection c; searchValue := searchValue c;
     searchableFields := searchableFields c; selectedData := data;
     selectedDataToShow := shown;
     selectedDataToShowBackup := backup;
     isReadonlyLoading := loading |}.

End State.

Import State.

(** ** dataTableService *)

Module Service.

(** *** Row selection *)

(** What [handleRowSelection] reads of the selection event:
    [event.detail.config.action], [event.detail.config.value] and
    [event.detail.selectedRows]. *)
Record selection_event : Type := {
  action : string;
  config_value : value;
  detail_selectedRows : list row
}.

(** The object [handleRowSelection] returns.  An entry of
    [deselectedRecords] is [None] where [data.find] found no row and
    left [undefined]. *)
Record selection_result : Type := {
  deselectedRecords : list (option row);
  result_selectedRows : jsset;
  selectedRecords : list row
}.

(** [row.Id] *)
Definition row_Id (r : row) : value := own_prop r "Id".

(** [data.find(row => row.Id === id)] *)
Definition find_by_Id (data : list row) (id : value) : option row :=
  List.find (fun r => strict_equals (row_Id r) id) data.

Definition handleRowSelection (event : selection_event)
    (tableComponent : component) (data : list row)
    : selection_result * component :=
  let value := config_value event in
  let selectedRows_ := detail_selectedRows event in
  if action event =? "selectAllRows" then
    let tc := set_selectedRows (set_of (map row_Id data)) tableComponent in
    ({| deselectedRecords := [];
        result_selectedRows := selectedRows tc;
        selectedRecords := data |}, tc)
  else if action event =? "deselectAllRows" then
    let deselected := map (find_by_Id data) (selectedRows tableComponent) in
    let tc := set_selectedRows [] tableComponent in
    ({| deselectedRecords := deselected;
        result_selectedRows := selectedRows tc;
        selectedRecords := [] |}, tc)
  else if action event =? "rowSelect" then
    let tc :=
      set_selectedRows
        (fold_left (fun s r => set_add s (row_Id r)) selectedRows_
           (selectedRows tableComponent)) tableComponent in
    ({| deselectedRecords := [];
        result_selectedRows := selectedRows tc;
        selectedRecords :=
          List.filter
            (fun r => existsb (fun sel => strict_equals (row_Id sel) (row_Id r))
                        selectedRows_) data |}, tc)
  else if action event =? "rowDeselect" then
    if (length selectedRows_ =? 0)%nat then
      let deselected := map (find_by_Id data) (selectedRows tableComponent) in
      let tc := set_selectedRows [] tableComponent in
      ({| deselectedRecords := deselected;
          result_selectedRows := selectedRows tc;
          selectedRecords := [] |}, tc)
    else
      let tc :=
        set_selectedRows (set_delete (selectedRows tableComponent) value)
          tableComponent in
      ({| deselectedRecords :=
            map Some
              (List.filter
                 (fun r => negb (set_has (selectedRows tc) (row_Id r))) data);
          result_selectedRows := selectedRows tc;
          selectedRecords :=
            List.filter (fun r => set_has (selectedRows tc) (row_Id r)) data |},
       tc)
  else
    let tc := set_selectedRows [] tableComponent in
    ({| deselectedRecords := [];
        result_selectedRows := selectedRows tc;
        selectedRecords := [] |}, tc).

(** *** Sorting *)

Section Sorting.
Context `{Host}.

(** The callback of [reduce] in [resolveFieldValue]:
    [(obj, key) => obj ? obj[key] : null]. *)
Definition path_step (obj : value) (key : string) : value :=
  if truthy obj then get_prop obj key else VNull.

(** [resolveFieldValue(record, fieldPath)].  The record is a row object,
    hence never falsy.  A field path that is neither falsy nor a string has
    no [split] method, and the call throws. *)
Definition resolveFieldValue (record : row) (fieldPath : value) : result value :=
  if negb (truthy fieldPath) then Ok VNull
  else match fieldPath with
       | VStr path => Ok (fold_left path_step (split "." path) (VObj record))
       | _ => Throw TypeError
       end.

(** The comparison of two resolved values in the callback of
    [clonedData.sort].  The values come out of [JSON.parse]: none is a
    [Date] and none has a type outside the four cases of the [switch]. *)
Definition compare_values (sortDirection valueA valueB : value) : Z :=
  if is_nullish valueA && is_nullish valueB then 0
  else if is_nullish valueA then 1
  else if is_nullish valueB then -1
  else
    let asc := strict_equals sortDirection (VStr "asc") in
    let '(valueA, valueB) :=
      if negb (js_type_eqb (typeof valueA) (typeof valueB))
      then (VStr (to_String valueA), VStr (to_String valueB))
      else (valueA, valueB) in
    match valueA, valueB with
    | VNum a, VNum b => if asc then a - b else b - a
    | VBool a, VBool b =>
        if asc
        then (if eqb a b then 0 else if a then -1 else 1)
        else (if eqb a b then 0 else if a then 1 else -1)
    | VStr a, VStr b =>
        let a := toLowerCase a in
        let b := toLowerCase b in
        if asc then localeCompare a b else localeCompare b a
    | _, _ =>
        let a := toLowerCase (JSON_stringify valueA) in
        let b := toLowerCase (JSON_stringify valueB) in
        if asc then localeCompare a b else localeCompare b a
    end%Z.

(** The callback [(a, b) => ...] given to [sort]. *)
Definition comparator (fieldName sortDirection : value) (a b : row) : result Z :=
  valueA ← resolveFieldValue a fieldName;
  valueB ← resolveFieldValue b fieldName;
  mret (compare_values sortDirection valueA valueB).

End Sorting.

(** [Array.prototype.sort] with a callback that may throw: a stable
    insertion sort.  An element goes before the first one it does not
    compare greater than. *)
Fixpoint insert_sorted {A : Type} (cmp : A -> A -> result Z) (x : A)
    (l : list A) : result (list A) :=
  match l with
  | [] => Ok [x]
  | y :: ys =>
      c ← cmp x y;
      if (c <=? 0)%Z then Ok (x :: y :: ys)
      else rest ← insert_sorted cmp x ys; Ok (y :: rest)
  end.

Fixpoint array_sort {A : Type} (cmp : A -> A -> result Z) (l : list A)
    : result (list A) :=
  match l with
  | [] => Ok []
  | x :: xs => sorted ← array_sort cmp xs; insert_sorted cmp x sorted
  end.

(** Arrays and row objects have an identity: [handleSort] is given a
    reference to the array of the caller and returns a reference.  The store
    maps an address to an array of row references or to a row. *)
Abbreviation loc := nat (only parsing).

Inductive cell : Type :=
| CRow (r : row)
| CArr (elems : list loc).

Abbreviation heap := (list cell) (only parsing).

Definition alloc (h : heap) (c : cell) : loc * heap := (length h, h ++ [c]).

Definition read_row (h : heap) (l : loc) : option row :=
  match h !! l with
  | Some (CRow r) => Some r
  | _ => None
  end.

Definition read_array (h : heap) (l : loc) : option (list loc) :=
  match h !! l with
  | Some (CArr elems) => Some elems
  | _ => None
  end.

(** The rows of the dataset stored at [l], in order. *)
Definition read_dataset (h : heap) (l : loc) : option (list row) :=
  elems ← read_array h l; mapM (read_row h) elems.

Fixpoint alloc_rows (h : heap) (rows : list row) : list loc * heap :=
  match rows with
  | [] => ([], h)
  | r :: rs =>
      let '(l, h1) := alloc h (CRow r) in
      let '(ls, h2) := alloc_rows h1 rs in
      (l :: ls, h2)
  end.

(** [JSON.parse(JSON.stringify(tableData))]: a new array of new row
    objects.  A reference that holds no array of rows has nothing to copy
    and sort, and the statement throws. *)
Definition json_copy (h : heap) (tableData : loc) : result (loc * heap) :=
  match read_dataset h tableData with
  | Some rows =>
      let '(ls, h1) := alloc_rows h (map json_clone_row rows) in
      Ok (alloc h1 (CArr ls))
  | None => Throw SyntaxError
  end.

(** [arr.sort(cmp)], which reorders the array stored at [arr] in place. *)
Definition sort_in_place (cmp : row -> row -> result Z) (arr : loc) (h : heap)
    : result heap :=
  match read_array h arr, read_dataset h arr with
  | Some elems, Some rows =>
      sorted ← array_sort (fun p q => cmp (snd p) (snd q)) (zip elems rows);
      Ok (<[arr := CArr (map fst sorted)]> h)
  | _, _ => Throw TypeError
  end.

Section HandleSort.
Context `{Host}.

(** [event.detail.fieldName] and [event.detail.sortDirection]; reading a
    property of a missing [event.detail] throws. *)
Definition sort_spec (event : value) : result (value * value) :=
  detail ← get_member event "detail";
  fieldName ← get_member detail "fieldName";
  sortDirection ← get_member detail "sortDirection";
  mret (fieldName, sortDirection).

(** The [try] block of [handleSort]: what it returns or throws, together
    with the component and the store as the block leaves them. *)
Definition handleSort_try (event : value) (tableComponent : component)
    (tableData : loc) (h : heap) : result loc * component * heap :=
  match sort_spec event with
  | Throw e => (Throw e, tableComponent, h)
  | Ok (fieldName, sortDirection) =>
      let tc := set_sorted fieldName sortDirection tableComponent in
      match json_copy h tableData with
      | Throw e => (Throw e, tc, h)
      | Ok (clonedData, h1) =>
          match sort_in_place (comparator fieldName sortDirection) clonedData h1 with
          | Throw e => (Throw e, tc, h1)
          | Ok h2 => (Ok clonedData, tc, h2)
          end
      end
  end.

(** [handleSort(event, tableComponent, tableData)]: the [catch] clause
    returns [tableData]. *)
Definition handleSort (event : value) (tableComponent : component)
    (tableData : loc) (h : heap) : loc * component * heap :=
  match handleSort_try event tableComponent tableData h with
  | (Ok sorted, tc, h') => (sorted, tc, h')
  | (Throw _, tc, h') => (tableData, tc, h')
  end.

(** [handleSort] read on the rows alone, for callers that only look at the
    rows of the dataset they get back: the dataset is given and returned as
    the sequence of its rows. *)
Definition handleSort_rows_try (event : value) (tableData : list row)
    : result (list row) :=
  '(fieldName, sortDirection) ← sort_spec event;
  array_sort (comparator fieldName sortDirection) (map json_clone_row tableData).

Definition handleSort_rows (event : value) (tableComponent : component)
    (tableData : list row) : list row * component :=
  (match handleSort_rows_try event tableData with
   | Ok sorted => sorted
   | Throw _ => tableData
   end,
   match sort_spec event with
   | Ok (fieldName, sortDirection) =>
       set_sorted fieldName sortDirection tableComponent
   | Throw _ => tableComponent
   end).

End HandleSort.

(** *** Searching *)

(** What [searchTextPaste] reads of the paste event: the clipboard text,
    and the value and the selection of the input the text is pasted in. *)
Record paste_event : Type := {
  clipboard_text : string;
  target_value : string;
  selectionStart : nat;
  selectionEnd : nat
}.

(** [text.split(/\r\n|\r|\n|,/)]; a line feed right after a carriage
    return belongs to the same separator. *)
Fixpoint split_breaks (after_cr : bool) (s : string) : list string :=
  match s with
  | EmptyString => [EmptyString]
  | String c r =>
      if after_cr && Ascii.eqb c "010" then split_breaks false r
      else if Ascii.eqb c "013" then EmptyString :: split_breaks true r
      else if Ascii.eqb c "010" || Ascii.eqb c "," then
        EmptyString :: split_breaks false r
      else match split_breaks false r with
           | [] => [String c EmptyString]
           | w :: ws => String c w :: ws
           end
  end.

(** [segment.trim() === ''] *)
Fixpoint blank (s : string) : bool :=
  match s with
  | EmptyString => true
  | String c r => is_space c && blank r
  end.

(** [searchTextPaste(event)]: the new value of the input. *)
Definition searchTextPaste (event : paste_event) : string :=
  let pastedText := clipboard_text event in
  let segments := List.filter (fun seg => negb (blank seg))
                    (split_breaks false pastedText) in
  let pastedText :=
    if (1 <? length segments)%nat then join "," segments else pastedText in
  let v := target_value event in
  String.substring 0 (selectionStart event) v +:+ pastedText
  +:+ String.substring (selectionEnd event) (String.length v) v.

Fixpoint skip_spaces (s : string) : string :=
  match s with
  | String c r => if is_space c then skip_spaces r else s
  | EmptyString => EmptyString
  end.

(** A match of [/\s*,\s*/] at the start of [s]: the longest run of
    spaces, a comma, the longest run of spaces.  The result is what
    follows the match. *)
Definition match_separator (s : string) : option string :=
  match skip_spaces s with
  | String c r => if Ascii.eqb c "," then Some (skip_spaces r) else None
  | EmptyString => None
  end.

Definition inspect {A : Type} (a : A) : {b : A | a = b} := exist _ a eq_refl.

(** [s.replace(/\s*,\s*/g, ",")]: at each position in turn, a match is
    replaced by a comma and the scan resumes after it; where nothing
    matches, the character is kept. *)
Equations? replace_separators (s : string) : string by wf (String.length s) lt :=
replace_separators EmptyString := EmptyString;
replace_separators (String c r) with inspect (match_separator (String c r)) := {
  | exist _ (Some rest) Heq => String "," (replace_separators rest);
  | exist _ None _ => String c (replace_separators r) }.
Proof.
  assert (Hskip : forall t, String.length (skip_spaces t) <= String.length t).
  { induction t as [|a t IH]; simpl; [lia|]. destruct (is_space a); simpl; lia. }
  unfold match_separator in Heq.
  pose proof (Hskip (String c r)) as H1.
  destruct (skip_spaces (String c r)) as [|a t]; [discriminate|].
  destruct (Ascii.eqb a ","); [|discriminate].
  injection Heq as <-. pose proof (Hskip t). simpl in H1. lia.
Qed.

Definition formatSearchString (searchValue : string) : string :=
  replace_separators searchValue.

(** [arr.some(f)] for a callback that may throw: the first element that
    satisfies [f] ends the scan. *)
Fixpoint some {A : Type} (f : A -> result bool) (l : list A) : result bool :=
  match l with
  | [] => Ok false
  | x :: xs => b ← f x; if (b : bool) then Ok true else some f xs
  end.

(** [record[field]?.toLowerCase().includes(searchValueLower)]: [?.] stops
    at [null] and [undefined]; a value of another type than string has no
    [toLowerCase] method, and the call throws. *)
Definition field_includes (record : row) (searchValueLower : string)
    (field : string) : result bool :=
  match own_prop record field with
  | VUndefined | VNull => Ok false
  | VStr s => Ok (includes (toLowerCase s) searchValueLower)
  | _ => Throw TypeError
  end.

(** [record[field] && searchValueArray.includes(record[field]?.toLowerCase())] *)
Definition field_is_term (record : row) (searchValueArray : list string)
    (field : string) : result bool :=
  let v := own_prop record field in
  if negb (truthy v) then Ok false
  else match v with
       | VStr s => Ok (existsb (String.eqb (toLowerCase s)) searchValueArray)
       | _ => Throw TypeError
       end.

(** The condition of the [if] in the loop of [dataTableSearchResult]. *)
Definition record_matches (searchValueLower : string)
    (searchValueArray : list string) (searchableFields : list string)
    (record : row) : result bool :=
  b ← some (field_includes record searchValueLower) searchableFields;
  if (b : bool) then Ok true
  else some (field_is_term record searchValueArray) searchableFields.

(** The [for] loop: the matching records are pushed in the order of
    [data]. *)
Fixpoint search_loop (matches : row -> result bool) (data : list row)
    : result (list row) :=
  match data with
  | [] => Ok []
  | record :: rest =>
      m ← matches record;
      tempDisplayData ← search_loop matches rest;
      Ok (if (m : bool) then record :: tempDisplayData else tempDisplayData)
  end.

Definition dataTableSearchResult (searchValue : string)
    (searchableFields : list string) (data : list row) : result (list row) :=
  let searchValue := formatSearchString searchValue in
  let searchValueLower := toLowerCase searchValue in
  let searchValueArray := split "," (toLowerCase searchValue) in
  search_loop (record_matches searchValueLower searchValueArray searchableFields)
    data.

End Service.

Import Service.

(** ** The AdvancedDataTable component *)

Module Component.

Definition PAGE_SIZE : nat := 15.
Definition ENTER_KEY_CODE : Z := 13.

(** [arr.slice(from, to)] *)
Definition slice {A : Type} (l : list A) (from to : nat) : list A :=
  take (to - from) (drop from l).

(** The component as it is created, with the [searchable-fields]
    attribute its parent gives it. *)
Definition initial (fields : list string) : component :=
  {| isLazyLoading := true; dataTableValue := []; dataToShow := [];
     selectedRowsArray := []; selectedIds := []; selectedRows := [];
     _tableData := []; sortedBy := VUndefined; sortedDirection := VUndefined;
     searchValue := ""; searchableFields := fields; selectedData := [];
     selectedDataToShow := []; selectedDataToShowBackup := [];
     isReadonlyLoading := false |}.

(** [maintainSelectionState()].  [setSelectedRowsToDatatable] hands the
    array to the rendered table and leaves the component as it is. *)
Definition maintainSelectionState (c : component) : component :=
  set_selectedRowsArray
    (List.filter
       (fun rowId =>
          existsb (fun r => strict_equals (row_Id r) rowId) (_tableData c))
       (selectedRowsArray c)) c.

(** The [filter] of [setDataToReadOnlyTable]: the rows that were found,
    each identifier once, [uniqueIds] growing along the way. *)
Fixpoint unique_rows (uniqueIds : jsset) (found : list (option row)) : list row :=
  match found with
  | [] => []
  | None :: rest => unique_rows uniqueIds rest
  | Some r :: rest =>
      if set_has uniqueIds (row_Id r) then unique_rows uniqueIds rest
      else r :: unique_rows (set_add uniqueIds (row_Id r)) rest
  end.

Definition setDataToReadOnlyTable (c : component) : component :=
  let data :=
    unique_rows [] (map (find_by_Id (_tableData c)) (selectedRowsArray c)) in
  set_readonly data (slice data 0 PAGE_SIZE) data (isReadonlyLoading c) c.

(** [preSelection(value)]; [None] is a call without a list. *)
Definition preSelection (value : option (list value)) (c : component) : component :=
  match value with
  | Some ids =>
      set_selectedIds (selectedIds c ++ [VArr ids]) (set_selectedRowsArray ids c)
  | None => c
  end.

(** What the parent assigns to [tableData]: nothing, the array the
    component holds already, or another array. *)
Inductive tableData_value : Type :=
| NoData
| SameArray
| NewArray (rows : list row).

Definition set_tableData (value : tableData_value) (c : component) : component :=
  match value with
  | NewArray rows =>
      let c := set_tableData_field rows c in
      let c := set_dataTableValue (_tableData c) c in
      let c := set_dataToShow (slice (dataTableValue c) 0 PAGE_SIZE) c in
      setDataToReadOnlyTable c
  | SameArray =>
      if (length (_tableData c) =? 0)%nat then set_tableData_field [] c else c
  | NoData => set_tableData_field [] c
  end.

(** The detail of the [rowselection] event the component dispatches. *)
Record rowselection_detail : Type := {
  detail_selectedRows_ids : list value;
  detail_selectedRecords : list row;
  detail_deselectedRecords : list (option row);
  totalSelected : nat;
  detail_action : string;
  recordId : value
}.

Definition refreshDatatableSelection (event : selection_event)
    (selectedRecords_ : list row) (deselectedRecords_ : list (option row))
    (c : component) : rowselection_detail :=
  {| detail_selectedRows_ids := selectedRows c;
     detail_selectedRecords := selectedRecords_;
     detail_deselectedRecords := deselectedRecords_;
     totalSelected := length (selectedRows c);
     detail_action := action event;
     recordId := config_value event |}.

(** [handleRowSelection(event)]; [None] is an event whose
    [detail.config] has no keys, which the handler ignores. *)
Definition handleRowSelection (event : option selection_event) (c : component)
    : component * option rowselection_detail :=
  match event with
  | None => (c, None)
  | Some event =>
      let '(result, c) := Service.handleRowSelection event c (_tableData c) in
      let c := set_selectedRows (result_selectedRows result) c in
      let dispatched :=
        refreshDatatableSelection event (selectedRecords result)
          (deselectedRecords result) c in
      let c := set_selectedRowsArray (set_of (selectedRows c ++ selectedIds c)) c in
      let c := maintainSelectionState c in
      (setDataToReadOnlyTable c, Some dispatched)
  end.

(** [handleLoadMore(event)] *)
Definition handleLoadMore (c : component) : component :=
  let c := set_isLazyLoading true c in
  let c :=
    set_dataToShow
      (dataToShow c
       ++ slice (dataTableValue c) (length (dataToShow c))
            (length (dataToShow c) + PAGE_SIZE)) c in
  let c := set_isLazyLoading false c in
  maintainSelectionState c.

(** [renderedCallback()], given whether each of the two tables is in the
    template. *)
Definition renderedCallback (available readOnly : bool) (c : component) : component :=
  let c :=
    if available && (0 <? length (_tableData c))%nat
       && negb (length (dataToShow c) =? length (_tableData c))%nat
       && negb (isLazyLoading c)
    then set_isLazyLoading true c else c in
  if readOnly && (0 <? length (selectedData c))%nat
     && negb (length (selectedDataToShow c) =? length (selectedData c))%nat
     && negb (isReadonlyLoading c)
  then set_readonly (selectedData c) (selectedDataToShow c)
         (selectedDataToShowBackup c) true c
  else c.

(** [handleSearchKeyChange(event)], given [event.target.value]. *)
Definition handleSearchKeyChange (target : string) (c : component) : component :=
  if negb (blank target) then set_searchValue target c else set_searchValue "" c.

(** [handleSearch()].  An exception of the service leaves through the
    handler before anything is assigned. *)
Definition handleSearch (c : component) : result component :=
  c ← (if negb (searchValue c =? "") then
         let formattedSearchString := formatSearchString (searchValue c) in
         tempDisplayData ←
           dataTableSearchResult formattedSearchString (searchableFields c)
             (_tableData c);
         mret (set_dataTableValue tempDisplayData c)
       else mret (set_dataTableValue (_tableData c) c));
  let c := set_dataToShow (slice (dataTableValue c) 0 PAGE_SIZE) c in
  mret (maintainSelectionState c).

(** [handelSearchKey(event)], given [event.keyCode] and
    [event.target.value]; the [catch] clause keeps what was assigned. *)
Definition handelSearchKey (keyCode : Z) (target : string) (c : component) : component :=
  if (keyCode =? ENTER_KEY_CODE)%Z then
    let c := set_searchValue target c in
    match handleSearch c with
    | Ok c' => c'
    | Throw _ => c
    end
  else c.

(** [handleSearchTextPaste(event)] *)
Definition handleSearchTextPaste (event : paste_event) (c : component) : component :=
  let c := set_searchValue (searchTextPaste event) c in
  match handleSearch c with
  | Ok c' => c'
  | Throw _ => c
  end.

(** [handleReadonlyLoadMore(event)] *)
Definition handleReadonlyLoadMore (c : component) : component :=
  set_readonly (selectedData c)
    (selectedDataToShow c
     ++ slice (selectedDataToShowBackup c) (length (selectedDataToShow c))
          (length (selectedDataToShow c) + PAGE_SIZE))
    (selectedDataToShowBackup c) false c.

Section Sorting.
Context `{Host}.

(** [handleSort(event)]: the service sorts [_tableData]. *)
Definition handleSort (event : value) (c : component) : component :=
  let '(sordtedData, c) := handleSort_rows event c (_tableData c) in
  let c := set_dataToShow [] c in
  let c := set_dataTableValue sordtedData c in
  let c := set_dataToShow (slice (dataTableValue c) 0 PAGE_SIZE) c in
  maintainSelectionState c.

(** [handleShowSelectedTableSort(event)] *)
Definition handleShowSelectedTableSort (event : value) (c : component) : component :=
  let '(sortedData, c) := handleSort_rows event c (selectedData c) in
  set_readonly (selectedData c) (slice sortedData 0 PAGE_SIZE) sortedData
    (isReadonlyLoading c) c.

(** What can happen to the component: an assignment by the parent or a
    handler run by the framework. *)
Inductive operation : Type :=
| SetTableData (value : tableData_value)
| SetSearchableFields (fields : list string)
| PreSelection (value : option (list value))
| RowSelection (event : option selection_event)
| LoadMore
| Sort (event : value)
| Rendered (available readOnly : bool)
| SearchKeyChange (target : string)
| SearchKey (keyCode : Z) (target : string)
| SearchTextPaste (event : paste_event)
| Search
| ReadonlyLoadMore
| ShowSelectedTableSort (event : value).

(** The state after an operation.  The search button runs [handleSearch]
    with no [try] around it: when it throws, the state is the one before. *)
Definition step (op : operation) (c : component) : component :=
  match op with
  | SetTableData value => set_tableData value c
  | SetSearchableFields fields => set_searchableFields fields c
  | PreSelection value => preSelection value c
  | RowSelection event => fst (handleRowSelection event c)
  | LoadMore => handleLoadMore c
  | Sort event => handleSort event c
  | Rendered available readOnly => renderedCallback available readOnly c
  | SearchKeyChange target => handleSearchKeyChange target c
  | SearchKey keyCode target => handelSearchKey keyCode target c
  | SearchTextPaste event => handleSearchTextPaste event c
  | Search => match handleSearch c with Ok c' => c' | Throw _ => c end
  | ReadonlyLoadMore => handleReadonlyLoadMore c
  | ShowSelectedTableSort event => handleShowSelectedTableSort event c
  end.

(** The states the component can be in. *)
Inductive reachable : component -> Prop :=
| reachable_initial fields : reachable (initial fields)
| reachable_step op c : reachable c -> reachable (step op c).

End Sorting.

End Component.

Import Component.

(** ** The vocabulary of the properties *)

(** A row whose searchable fields are text or absent: the only rows the
    search accepts. *)
Definition text_or_absent (v : value) : bool :=
  match v with
  | VUndefined | VNull | VStr _ => true
  | _ => false
  end.

Definition searchable (fields : list string) (record : row) : bool :=
  forallb (fun field => text_or_absent (own_prop record field)) fields.

(** [sub] occurs in [s]. *)
Definition substring_of (sub s : string) : Prop :=
  exists pre post, s = pre +:+ sub +:+ post.

(** The matching rule in the words of the specification, with the
    comparison made on a non-empty field value: some configured field holds
    a text whose lowercase form contains the lowercase normalized query, or
    is one of its comma-separated terms. *)
Definition row_matches (query : string) (fields : list string) (record : row) : Prop :=
  let q := toLowerCase (formatSearchString query) in
  exists field s,
    field ∈ fields /\ own_prop record field = VStr s /\
    (substring_of q (toLowerCase s) \/
     (s <> "" /\ toLowerCase s ∈ split "," q)).

(** The same rule as the specification words it, an empty field value
    included. *)
Definition row_matches_as_specified (query : string) (fields : list string)
    (record : row) : Prop :=
  let q := toLowerCase (formatSearchString query) in
  exists field s,
    field ∈ fields /\ own_prop record field = VStr s /\
    (substring_of q (toLowerCase s) \/ toLowerCase s ∈ split "," q).

(** The row of the scenario: its phone number is one term of the query
    and none of its fields contains the whole query. *)
Definition phone_row : row :=
  [("Id", VStr "001"); ("Name", VStr "Globex"); ("Phone", VStr "555-1234")].

(** A row without the Phone field, and one whose Name is the empty text. *)
Definition nameless_row : row := [("Id", VStr "002"); ("Name", VStr "")].
Definition acme_row : row := [("Id", VStr "003"); ("Name", VStr "Acme")].

Definition starts_with_space (s : string) : bool :=
  match s with
  | String c _ => is_space c
  | EmptyString => false
  end.

(** No space touches a comma: the only match of the separator pattern at
    any position is a comma that no space follows. *)
Fixpoint bare (s : string) : bool :=
  match s with
  | EmptyString => true
  | String c r =>
      match match_separator s with
      | Some _ => Ascii.eqb c "," && negb (starts_with_space r)
      | None => true
      end && bare r
  end.

(** A row whose Name is the second term of the query [a,b]. *)
Definition b_row : row := [("Id", VStr "004"); ("Name", VStr "b")].


(** The selection events of the two actions that deselect. *)
Definition rowDeselect (value : value) (batch : list row) : selection_event :=
  {| action := "rowDeselect"; config_value := value;
     detail_selectedRows := batch |}.

Definition deselectAllRows (value : value) (batch : list row) : selection_event :=
  {| action := "deselectAllRows"; config_value := value;
     detail_selectedRows := batch |}.

(** A host to run the examples on: [localeCompare] by the order of the
    character codes, and a [JSON.stringify] for values whose texts need no
    escape. *)
Definition example_localeCompare (a b : string) : Z :=
  match String.compare a b with
  | Lt => -1
  | Eq => 0
  | Gt => 1
  end.

Definition quoted (s : string) : string :=
  String "034" s +:+ String "034" "".

Fixpoint example_stringify (v : value) : string :=
  match v with
  | VUndefined | VNull => "null"
  | VBool true => "true"
  | VBool false => "false"
  | VNum n => NilZero.string_of_int (Z.to_int n)
  | VStr s => quoted s
  | VArr elems => "[" +:+ join "," (map example_stringify elems) +:+ "]"
  | VObj props =>
      "{" +:+ join ","
                (map (fun kv => quoted (fst kv) +:+ ":" +:+ example_stringify (snd kv))
                   props) +:+ "}"
  end.

Definition example_host : Host :=
  {| localeCompare := example_localeCompare;
     JSON_stringify := example_stringify |}.

(** The sort event of a click on a column. *)
Definition sort_event (fieldName sortDirection : value) : value :=
  VObj [("detail", VObj [("fieldName", fieldName);
                          ("sortDirection", sortDirection)])].

(** Rows with a checkbox field, and one without it. *)
Definition active_row : row := [("Id", VStr "005"); ("Active", VBool true)].
Definition inactive_row : row := [("Id", VStr "006"); ("Active", VBool false)].
Definition unknown_row : row := [("Id", VStr "007")].

(** Nothing that was in the store has changed. *)
Definition preserved (h h' : heap) : Prop :=
  forall (l : loc) (c : cell), h !! l = Some c -> h' !! l = Some c.

(** A store with a dataset of two rows at address 2. *)
Definition example_heap : heap :=
  [CRow inactive_row; CRow active_row; CArr [0; 1]].

(** The identifiers of the rows of a dataset. *)
Definition identifiers (dataset : list row) : list value := map row_Id dataset.

(** The dataset of the paging scenario: twenty rows, R1 to R20. *)
Definition numbered_row (i : nat) : row :=
  [("Id", VStr ("R" +:+ NilZero.string_of_uint (Nat.to_uint i)))].

Definition twenty_rows : list row := map numbered_row (seq 1 20).

(** Two rows told apart by their name, and the selection event of a click
    on the first. *)
Definition alpha_row : row := [("Id", VStr "R1"); ("Name", VStr "alpha")].
Definition beta_row : row := [("Id", VStr "R2"); ("Name", VStr "beta")].

Definition select_alpha : selection_event :=
  {| action := "rowSelect"; config_value := VStr "R1";
     detail_selectedRows := [alpha_row] |}.

(** The operations of the stale-selection scenario: two rows arrive, the
    first is selected, the search keeps the second only. *)
Definition select_then_search : list operation :=
  [SetTableData (NewArray [alpha_row; beta_row]);
   RowSelection (Some select_alpha);
   SearchKeyChange "beta";
   Search].

(** The state after a sequence of operations. *)
Definition run `{Host} (ops : list operation) (c : component) : component :=
  fold_left (fun c op => step op c) ops c.

(** The value of the sort key of a row is [null] or missing. *)
Definition null_valued (fieldName : value) (r : row) : bool :=
  match resolveFieldValue r fieldName with
  | Ok v => is_nullish v
  | Throw _ => false
  end.

(** The rows with a value come first, those without come last. *)
Definition nulls_last (fieldName : value) (rows : list row) : Prop :=
  exists valued missing,
    rows = valued ++ missing /\
    forallb (fun r => negb (null_valued fieldName r)) valued = true /\
    forallb (null_valued fieldName) missing = true.

(** ** More vocabulary: the remaining actions, data without holes, keys *)

From Stdlib Require Import Sorted.

(** The selection events of the two actions that select. *)
Definition selectAllRows (value : value) (batch : list row) : selection_event :=
  {| action := "selectAllRows"; config_value := value;
     detail_selectedRows := batch |}.

Definition rowSelect (value : value) (batch : list row) : selection_event :=
  {| action := "rowSelect"; config_value := value;
     detail_selectedRows := batch |}.

(** An action the [switch] of [handleRowSelection] has a case for. *)
Definition known_action (a : string) : bool :=
  (a =? "selectAllRows") || (a =? "deselectAllRows") || (a =? "rowSelect")
  || (a =? "rowDeselect").

(** A value with no [undefined] anywhere in it: JSON data. *)
Fixpoint json_data (v : value) : bool :=
  match v with
  | VUndefined => false
  | VArr elems => forallb json_data elems
  | VObj props => forallb (fun kv => json_data (snd kv)) props
  | _ => true
  end.

Definition json_row (r : row) : bool := json_data (VObj r).

(** The character [c] occurs in [s]. *)
Fixpoint has_char (c : ascii) (s : string) : bool :=
  match s with
  | EmptyString => false
  | String a r => Ascii.eqb a c || has_char c r
  end.

(** The number of commas of a text. *)
Fixpoint count_commas (s : string) : nat :=
  match s with
  | EmptyString => 0
  | String a r => (if Ascii.eqb a "," then 1 else 0) + count_commas r
  end.

(** The segments [searchTextPaste] keeps of a pasted text. *)
Definition pasted_segments (pastedText : string) : list string :=
  List.filter (fun seg => negb (blank seg)) (split_breaks false pastedText).

(** A line break: carriage return or line feed. *)
Definition is_break (c : ascii) : bool := Ascii.eqb c "013" || Ascii.eqb c "010".

Definition is_array (v : value) : bool :=
  match v with
  | VArr _ => true
  | _ => false
  end.

(** [n] runs of [handleLoadMore]. *)
Definition load_more (n : nat) (c : component) : component :=
  Nat.iter n handleLoadMore c.

(** Rows with an amount, the amount of such a row, and a row with a nested
    account. *)
Definition amount_row (id : string) (amount : Z) : row :=
  [("Id", VStr id); ("Amount", VNum amount)].

Definition amount_rows : list row :=
  [amount_row "A" 30; amount_row "B" 10; amount_row "C" 20].

Definition amount_of (r : row) : Z :=
  match own_prop r "Amount" with
  | VNum n => n
  | _ => 0
  end.

Definition account_row : row :=
  [("Id", VStr "008"); ("Account", VObj [("Name", VStr "Initech")])].

(** Three account numbers copied from a column of a spreadsheet, and the
    paste of them in an empty search box. *)
Definition three_lines : string :=
  "001" +:+ String "010" ("002" +:+ String "013" (String "010" "003")).

Definition paste_three_lines : paste_event :=
  {| clipboard_text := three_lines; target_value := "";
     selectionStart := 0; selectionEnd := 0 |}.

(** The rows a search is to show: those the service finds for the search
    text, or all the rows when there is no search text. *)
Definition search_dataset (c : component) : result (list row) :=
  if negb (searchValue c =? "") then
    dataTableSearchResult (formatSearchString (searchValue c))
      (searchableFields c) (_tableData c)
  else Ok (_tableData c).

(** The operations that assign [tableData], and the selection events. *)
Definition assigns_tableData (op : operation) : bool :=
  match op with
  | SetTableData _ => true
  | _ => false
  end.

Definition is_row_selection (op : operation) : bool :=
  match op with
  | RowSelection _ => true
  | _ => false
  end.

(** What [handleSort] does with the rows the service returns: they become
    the working dataset, the window its first page, and the reconciler
    runs. *)
Definition show_rows (rows : list row) (c : component) : component :=
  maintainSelectionState
    (set_dataToShow (slice rows 0 PAGE_SIZE)
       (set_dataTableValue rows (set_dataToShow [] c))).

(** The component after two rows arrive, the second is pre-selected and
    the first is clicked; and the same with a search for [beta] run. *)
Definition preselected_state `{Host} : component :=
  step (PreSelection (Some [VStr "R2"]))
    (step (SetTableData (NewArray [alpha_row; beta_row])) (initial ["Name"])).

Definition searched_state `{Host} : component :=
  step Search (step (SearchKeyChange "beta") preselected_state).


(** Twenty rows with a rank, the rank of such a row, and the rows of given
    numbers. *)
Definition ranked_row (i : nat) : row :=
  [("Id", VStr ("R" +:+ NilZero.string_of_uint (Nat.to_uint i)));
   ("Rank", VNum (Z.of_nat i))].

Definition ranked_rows : list row := map ranked_row (seq 1 20).

Definition rank_of (r : row) : Z :=
  match own_prop r "Rank" with
  | VNum n => n
  | _ => 0
  end.

(** The order a sort in direction [d] puts two keys in. *)
Definition in_direction (d : value) (a b : Z) : Prop :=
  if strict_equals d (VStr "asc") then (a <= b)%Z else (b <= a)%Z.
(** ** Properties of the search *)

Section Search.

Lemma append_String (a : ascii) (s t : string) :
  String a s +:+ t = String a (s +:+ t).
Proof. reflexivity. Qed.

Lemma append_empty (t : string) : "" +:+ t = t.
Proof. reflexivity. Qed.

Lemma prefix_true_iff (sub s : string) :
  String.prefix sub s = true <-> exists post, s = sub +:+ post.
Proof.
  revert s. induction sub as [|a sub IH]; intros s; simpl.
  - destruct s; split; eauto.
  - destruct s as [|b s]; simpl.
    + split; [discriminate|]. intros [post Hp]. discriminate.
    + destruct (ascii_dec a b) as [->|Hne].
      * rewrite IH. split; intros [post Hp]; exists post;
          rewrite append_String in *; congruence.
      * split; [discriminate|]. intros [post Hp].
        rewrite append_String in Hp. congruence.
Qed.

Lemma includes_true_iff (s sub : string) :
  includes s sub = true <-> substring_of sub s.
Proof.
  unfold substring_of. induction s as [|c s IH].
  - cbn [includes]. destruct (String.prefix sub "") eqn:E.
    + split; [intros _|reflexivity].
      apply prefix_true_iff in E as [post Hp]. exists "", post. exact Hp.
    + split; [discriminate|]. intros (pre & post & Hp).
      destruct pre; [|discriminate]. rewrite append_empty in Hp.
      assert (String.prefix sub "" = true) by (apply prefix_true_iff; eauto).
      congruence.
  - cbn [includes]. destruct (String.prefix sub (String c s)) eqn:E.
    + split; [intros _|reflexivity].
      apply prefix_true_iff in E as [post Hp]. exists "", post. exact Hp.
    + rewrite IH. split.
      * intros (pre & post & Hp). exists (String c pre), post.
        rewrite append_String. congruence.
      * intros (pre & post & Hp). destruct pre as [|a pre].
        -- rewrite append_empty in Hp.
           assert (String.prefix sub (String c s) = true)
             by (apply prefix_true_iff; eauto). congruence.
        -- rewrite append_String in Hp. injection Hp as -> ->. eauto.
Qed.

Lemma existsb_eqb_elem_of (x : string) (l : list string) :
  existsb (String.eqb x) l = true <-> x ∈ l.
Proof.
  rewrite existsb_exists, list_elem_of_In. split.
  - intros (y & Hy & Heq). apply String.eqb_eq in Heq. congruence.
  - intros Hin. exists x. split; [exact Hin|apply String.eqb_refl].
Qed.

Lemma some_Ok_true {A : Type} (f : A -> result bool) (P : A -> Prop) (l : list A) :
  Forall (fun x => exists b, f x = Ok b /\ (b = true <-> P x)) l ->
  exists b, some f l = Ok b /\ (b = true <-> exists x, x ∈ l /\ P x).
Proof.
  induction 1 as [|x l (b & Hfx & Hb) _ (b' & Hsome & Hb')]; simpl.
  - exists false. split; [reflexivity|]. split; [discriminate|].
    intros (x & Hx & _). inversion Hx.
  - rewrite Hfx. cbn. destruct b.
    + exists true. split; [reflexivity|]. split; [|reflexivity].
      intros _. exists x. split; [left|]. now apply Hb.
    + exists b'. split; [exact Hsome|]. rewrite Hb'. split.
      * intros (y & Hy & HP). exists y. split; [now right|exact HP].
      * intros (y & Hy & HP). apply elem_of_cons in Hy as [->|Hy].
        -- apply Hb in HP. discriminate.
        -- eauto.
Qed.

Lemma truthy_VStr (s : string) : truthy (VStr s) = true <-> s <> "".
Proof.
  simpl. destruct (String.eqb_spec s ""); simpl; split; congruence.
Qed.

(** On a searchable row the condition of the loop does not throw, and it
    holds exactly when the row matches. *)
Lemma record_matches_spec (query : string) (fields : list string) (record : row) :
  searchable fields record = true ->
  exists b,
    record_matches (toLowerCase (formatSearchString query))
      (split "," (toLowerCase (formatSearchString query))) fields record = Ok b
    /\ (b = true <-> row_matches query fields record).
Proof.
  intros Hs. unfold record_matches, row_matches.
  unfold searchable in Hs. rewrite forallb_forall in Hs.
  apply List.Forall_forall in Hs.
  set (q := toLowerCase (formatSearchString query)).
  destruct (some_Ok_true (field_includes record q)
              (fun field => exists s, own_prop record field = VStr s /\
                                      substring_of q (toLowerCase s)) fields)
    as (b1 & H1 & Hb1).
  { eapply Forall_impl; [exact Hs|]. intros field Hf. unfold field_includes.
    cbv beta in Hf. destruct (own_prop record field) eqn:E; try discriminate.
    - exists false. split; [reflexivity|]. split; [discriminate|].
      intros (s & Hs' & _). discriminate.
    - exists false. split; [reflexivity|]. split; [discriminate|].
      intros (s & Hs' & _). discriminate.
    - eexists. split; [reflexivity|]. rewrite includes_true_iff. split.
      + intros Hsub. eauto.
      + intros (s' & [= <-] & Hsub). exact Hsub. }
  destruct (some_Ok_true (field_is_term record (split "," q))
              (fun field => exists s, own_prop record field = VStr s /\
                                      s <> "" /\ toLowerCase s ∈ split "," q) fields)
    as (b2 & H2 & Hb2).
  { eapply Forall_impl; [exact Hs|]. intros field Hf. unfold field_is_term.
    cbv beta in Hf. destruct (own_prop record field) eqn:E; try discriminate.
    - exists false. split; [reflexivity|]. split; [discriminate|].
      intros (s & Hs' & _). discriminate.
    - exists false. split; [reflexivity|]. split; [discriminate|].
      intros (s & Hs' & _). discriminate.
    - destruct (truthy (VStr s)) eqn:Et; cbn [negb].
      + eexists. split; [reflexivity|]. rewrite existsb_eqb_elem_of.
        apply truthy_VStr in Et. split.
        * intros Hin. eauto.
        * intros (s' & [= <-] & _ & Hin). exact Hin.
      + exists false. split; [reflexivity|]. split; [discriminate|].
        intros (s' & [= <-] & Hne & _). apply truthy_VStr in Hne. congruence. }
  rewrite H1. cbn. destruct b1.
  - exists true. split; [reflexivity|]. split; [|reflexivity]. intros _.
    destruct (proj1 Hb1 eq_refl) as (field & Hin & s & Hp & Hsub).
    exists field, s. auto.
  - exists b2. split; [exact H2|]. rewrite Hb2. split.
    + intros (field & Hin & s & Hp & Hne & Hterm). exists field, s. auto.
    + intros (field & s & Hin & Hp & [Hsub|[Hne Hterm]]).
      * assert (false = true); [|discriminate]. apply Hb1. eauto.
      * eauto 6.
Qed.

Lemma search_loop_sublist (matches : row -> result bool) (data res : list row) :
  search_loop matches data = Ok res -> res `sublist_of` data.
Proof.
  revert res. induction data as [|record data IH]; simpl; intros res Hres.
  - injection Hres as <-. constructor.
  - destruct (matches record) as [m|e]; cbn in Hres; [|discriminate].
    destruct (search_loop matches data) as [tl|e]; cbn in Hres; [|discriminate].
    injection Hres as <-. specialize (IH tl eq_refl).
    destruct m; [now apply sublist_skip|now apply sublist_cons].
Qed.

Lemma search_loop_matches (query : string) (fields : list string) (data : list row) :
  forallb (searchable fields) data = true ->
  exists res,
    search_loop
      (record_matches (toLowerCase (formatSearchString query))
         (split "," (toLowerCase (formatSearchString query))) fields) data
    = Ok res
    /\ forall record,
         record ∈ res <-> record ∈ data /\ row_matches query fields record.
Proof.
  induction data as [|r data IH]; cbn [forallb search_loop]; intros Hs.
  - exists []. split; [reflexivity|]. intros record. split.
    + intros Hin. inversion Hin.
    + intros [Hin _]. inversion Hin.
  - apply andb_true_iff in Hs as [Hr Hs].
    destruct (IH Hs) as (tl & Htl & Hmem).
    destruct (record_matches_spec query fields r Hr) as (b & Hb & Hiff).
    rewrite Hb, Htl. cbn. eexists. split; [reflexivity|].
    intros record. destruct b.
    + rewrite !elem_of_cons, Hmem. split.
      * intros [->|[Hin Hm]]; [|tauto]. split; [now left|now apply Hiff].
      * intros [[->|Hin] Hm]; [now left|tauto].
    + rewrite elem_of_cons, Hmem. split; [tauto|].
      intros [[->|Hin] Hm]; [|tauto].
      apply Hiff in Hm. discriminate.
Qed.

(** C5 (as amended): on rows whose searchable fields are text or absent the
    search returns, and a row is in the result exactly when some configured
    field holds a text whose lowercase form contains the lowercase
    normalized query, or a non-empty text whose lowercase form is one of the
    comma-separated terms of that query.  With fields Name and Phone and the
    query 555-1234,Acme the row whose Phone is 555-1234 is returned. *)
Theorem search_result_matches :
  (forall (query : string) (fields : list string) (data : list row),
     forallb (searchable fields) data = true ->
     exists res,
       dataTableSearchResult query fields data = Ok res /\
       forall record,
         record ∈ res <-> record ∈ data /\ row_matches query fields record)
  /\ dataTableSearchResult "555-1234,Acme" ["Name"; "Phone"] [phone_row]
     = Ok [phone_row]
  /\ includes (toLowerCase "Globex") (toLowerCase "555-1234,Acme") = false.
Proof.
  split; [|split; reflexivity].
  intros query fields data Hs. unfold dataTableSearchResult.
  exact (search_loop_matches query fields data Hs).
Qed.

Lemma search_result_matches_witness :
  exists res,
    dataTableSearchResult "555-1234,Acme" ["Name"; "Phone"]
      [phone_row; nameless_row; acme_row] = Ok res /\
    forall record,
      record ∈ res <->
      record ∈ [phone_row; nameless_row; acme_row] /\
      row_matches "555-1234,Acme" ["Name"; "Phone"] record.
Proof.
  apply (proj1 search_result_matches). reflexivity.
Defined.

(** C5, as the specification words it, fails on an empty field value: the
    empty text is a term of the query [a,], yet the row is not returned. *)
Lemma search_empty_value_counterexample :
  row_matches_as_specified "a," ["Name"] nameless_row /\
  nameless_row ∈ [nameless_row] /\
  dataTableSearchResult "a," ["Name"] [nameless_row] = Ok [].
Proof.
  split; [|split; [left|reflexivity]].
  exists "Name", "". split; [left|]. split; [reflexivity|].
  right. vm_compute. right. left.
Qed.

(** C10: whatever the search returns is a subsequence of the dataset, and
    it does return when the searchable fields of the rows are text or
    absent. *)
Theorem search_result_sublist (query : string) (fields : list string)
    (data : list row) :
  (forall res,
     dataTableSearchResult query fields data = Ok res -> res `sublist_of` data)
  /\ (forallb (searchable fields) data = true ->
      exists res, dataTableSearchResult query fields data = Ok res).
Proof.
  split.
  - intros res. apply search_loop_sublist.
  - intros Hs. destruct (search_loop_matches query fields data Hs) as (res & Hres & _).
    exists res. exact Hres.
Qed.

Lemma search_result_sublist_witness :
  [phone_row; acme_row] `sublist_of` [phone_row; nameless_row; acme_row]
  /\ exists res,
       dataTableSearchResult "555-1234,Acme" ["Name"; "Phone"]
         [phone_row; nameless_row; acme_row] = Ok res.
Proof.
  pose proof (search_result_sublist "555-1234,Acme" ["Name"; "Phone"]
                [phone_row; nameless_row; acme_row]) as [Hsub Htotal].
  split.
  - apply Hsub. reflexivity.
  - apply Htotal. reflexivity.
Defined.

End Search.

(** ** Properties of the normalization of the query *)

Section Normalize.

Lemma replace_separators_String (c : ascii) (r : string) :
  replace_separators (String c r) =
  match match_separator (String c r) with
  | Some rest => String "," (replace_separators rest)
  | None => String c (replace_separators r)
  end.
Proof.
  rewrite replace_separators_equation_2.
  assert (Hx : forall x : {b | match_separator (String c r) = b},
             replace_separators_unfold_clause_2 c r x =
             match proj1_sig x with
             | Some rest => String "," (replace_separators rest)
             | None => String c (replace_separators r)
             end).
  { intros [[rest|] Heq]; reflexivity. }
  apply Hx.
Qed.

Lemma comma_not_space : is_space "," = false.
Proof. reflexivity. Qed.

Lemma skip_spaces_no_space (s : string) :
  starts_with_space (skip_spaces s) = false.
Proof.
  induction s as [|c r IH]; simpl; [reflexivity|].
  destruct (is_space c) eqn:E; [exact IH|]. simpl. exact E.
Qed.

Lemma skip_spaces_id (s : string) :
  starts_with_space s = false -> skip_spaces s = s.
Proof. destruct s as [|c r]; simpl; [reflexivity|]. now intros ->. Qed.

(** The three cases of a match at the head of a text. *)
Lemma match_separator_comma (r : string) :
  match_separator (String "," r) = Some (skip_spaces r).
Proof. reflexivity. Qed.

Lemma match_separator_space (c : ascii) (r : string) :
  is_space c = true -> match_separator (String c r) = match_separator r.
Proof. intros Hc. unfold match_separator. simpl. now rewrite Hc. Qed.

Lemma match_separator_other (c : ascii) (r : string) :
  is_space c = false -> Ascii.eqb c "," = false ->
  match_separator (String c r) = None.
Proof. intros Hc Hn. unfold match_separator. simpl. now rewrite Hc, Hn. Qed.

Lemma match_separator_cases (c : ascii) (r : string) :
  (c = ","%char /\ match_separator (String c r) = Some (skip_spaces r)) \/
  (is_space c = true /\ match_separator (String c r) = match_separator r) \/
  (is_space c = false /\ Ascii.eqb c "," = false /\
   match_separator (String c r) = None).
Proof.
  destruct (Ascii.eqb_spec c ",") as [->|Hne].
  - left. split; reflexivity.
  - destruct (is_space c) eqn:Hc.
    + right. left. split; [reflexivity|now apply match_separator_space].
    + right. right. split; [reflexivity|]. split; [reflexivity|].
      apply match_separator_other; [exact Hc|]. now apply Ascii.eqb_neq.
Qed.

Lemma bare_fixed (s : string) : bare s = true -> replace_separators s = s.
Proof.
  induction s as [|c r IH]; [reflexivity|].
  cbn [bare]. rewrite replace_separators_String. intros Hb.
  apply andb_true_iff in Hb as [Hhead Hr]. specialize (IH Hr).
  destruct (match_separator (String c r)) as [rest|] eqn:E.
  - apply andb_true_iff in Hhead as [Hc Hns].
    apply Ascii.eqb_eq in Hc. subst c.
    rewrite match_separator_comma in E. injection E as <-.
    apply negb_true_iff in Hns. rewrite (skip_spaces_id r Hns). now rewrite IH.
  - now rewrite IH.
Qed.

Lemma replace_separators_no_space (s : string) :
  starts_with_space s = false ->
  starts_with_space (replace_separators s) = false.
Proof.
  destruct s as [|c r]; [reflexivity|]. simpl. intros Hc.
  rewrite replace_separators_String.
  destruct (match_separator (String c r)); simpl; [reflexivity|exact Hc].
Qed.

Lemma replace_separators_no_match (s : string) :
  match_separator s = None -> match_separator (replace_separators s) = None.
Proof.
  induction s as [|c r IH]; [reflexivity|]. intros Hm.
  rewrite replace_separators_String, Hm.
  destruct (match_separator_cases c r) as [[-> Hc]|[[Hs Hc]|(Hs & Hn & _)]].
  - congruence.
  - rewrite match_separator_space by exact Hs. apply IH. congruence.
  - now apply match_separator_other.
Qed.

Lemma replace_separators_bare (s : string) : bare (replace_separators s) = true.
Proof.
  remember (String.length s) as n eqn:Hn. revert s Hn.
  induction n as [n IH] using lt_wf_ind. intros s Hn.
  destruct s as [|c r]; [reflexivity|].
  rewrite replace_separators_String.
  destruct (match_separator (String c r)) as [rest|] eqn:E.
  - assert (Hlen : String.length rest < n).
    { subst n. clear IH. unfold match_separator in E.
      assert (Hskip : forall t, String.length (skip_spaces t) <= String.length t).
      { induction t as [|a t IHt]; simpl; [lia|].
        destruct (is_space a); simpl; lia. }
      pose proof (Hskip (String c r)) as H1.
      destruct (skip_spaces (String c r)) as [|a t]; [discriminate|].
      destruct (Ascii.eqb a ","); [|discriminate].
      injection E as <-. pose proof (Hskip t). simpl in *. lia. }
    assert (Hns : starts_with_space rest = false).
    { unfold match_separator in E.
      destruct (skip_spaces (String c r)) as [|a t]; [discriminate|].
      destruct (Ascii.eqb a ","); [|discriminate].
      injection E as <-. apply skip_spaces_no_space. }
    cbn [bare]. rewrite match_separator_comma.
    rewrite (replace_separators_no_space rest Hns).
    rewrite (IH _ Hlen rest eq_refl). reflexivity.
  - cbn [bare]. rewrite (IH (String.length r)); [|subst n; simpl; lia|reflexivity].
    destruct (match_separator_cases c r) as [[-> Hc]|[[Hs Hc]|(Hs & Hne & _)]].
    + congruence.
    + rewrite match_separator_space by exact Hs.
      rewrite replace_separators_no_match by congruence. reflexivity.
    + rewrite match_separator_other by assumption. reflexivity.
Qed.

(** Normalizing twice is normalizing once. *)
Lemma formatSearchString_idempotent (searchValue : string) :
  formatSearchString (formatSearchString searchValue)
  = formatSearchString searchValue.
Proof. apply bare_fixed, replace_separators_bare. Qed.

(** C3 (as amended): the search gives the same result on a query and on
    its normalized form; the normalization removes the spaces next to a
    comma, so [a , b] becomes [a,b], and keeps those at the ends of the
    query, so [ a , b ] becomes [ a,b ]. *)
Theorem search_normalized_query :
  (forall (query : string) (fields : list string) (data : list row),
     dataTableSearchResult (formatSearchString query) fields data
     = dataTableSearchResult query fields data)
  /\ (forall (fields : list string) (data : list row),
        dataTableSearchResult (formatSearchString "a , b") fields data
        = dataTableSearchResult "a,b" fields data)
  /\ formatSearchString " a , b " = " a,b ".
Proof.
  split; [|split].
  - intros query fields data. unfold dataTableSearchResult.
    now rewrite formatSearchString_idempotent.
  - intros fields data. reflexivity.
  - reflexivity.
Qed.

(** C3, as stated, fails: with the spaces at the ends of [ a , b ] kept,
    the terms are [ a] and [b ], and the row named [b] is not found. *)
Lemma search_normalized_counterexample :
  dataTableSearchResult (formatSearchString " a , b ") ["Name"] [b_row] = Ok []
  /\ dataTableSearchResult "a,b" ["Name"] [b_row] = Ok [b_row].
Proof. split; reflexivity. Qed.

End Normalize.

(** ** Properties of the row selection *)

Section Selection.

Lemma strict_equals_true (a b : value) : strict_equals a b = true <-> a = b.
Proof. unfold strict_equals. apply bool_decide_eq_true. Qed.

Lemma set_has_true (s : jsset) (v : value) : set_has s v = true <-> v ∈ s.
Proof.
  unfold set_has. rewrite existsb_exists, list_elem_of_In. split.
  - intros (x & Hx & Heq). apply strict_equals_true in Heq. now subst.
  - intros Hin. exists v. split; [exact Hin|now apply strict_equals_true].
Qed.

Lemma set_delete_elem_of (s : jsset) (v id : value) :
  id ∈ set_delete s v <-> id ∈ s /\ id <> v.
Proof.
  unfold set_delete. rewrite !list_elem_of_In, filter_In.
  rewrite negb_true_iff. unfold strict_equals. rewrite bool_decide_eq_false.
  tauto.
Qed.

(** The [filter] of arrays by a test and the list filter by the
    property the test decides. *)
Lemma filter_test {A : Type} (f : A -> bool) (P : A -> Prop)
    `{!forall x, Decision (P x)} (l : list A) :
  (forall x, f x = true <-> P x) -> List.filter f l = filter P l.
Proof.
  intros Hf. induction l as [|x l IH]; [reflexivity|].
  simpl. rewrite filter_cons. destruct (decide (P x)) as [HP|HP].
  - apply Hf in HP. rewrite HP. now rewrite IH.
  - destruct (f x) eqn:E; [apply Hf in E; contradiction|exact IH].
Qed.

(** C6: [rowDeselect] with an empty batch does what [deselectAllRows]
    does: the selection is emptied, the deselected records are those found
    for the identifiers selected before, and no record is selected.  With a
    batch that is not empty, [value] alone leaves the selection, the
    deselected records are the rows of the dataset whose identifier is not
    selected any more, the selected records those whose identifier is. *)
Theorem rowDeselect_effect (tc : component) (data : list row) (value : value) :
  (forall value' batch',
     Service.handleRowSelection (rowDeselect value []) tc data
     = Service.handleRowSelection (deselectAllRows value' batch') tc data)
  /\ (let '(r, tc') := Service.handleRowSelection (rowDeselect value []) tc data in
      selectedRows tc' = [] /\ result_selectedRows r = [] /\
      deselectedRecords r = map (find_by_Id data) (selectedRows tc) /\
      selectedRecords r = [])
  /\ (forall (b : row) (batch : list row),
        let '(r, tc') :=
          Service.handleRowSelection (rowDeselect value (b :: batch)) tc data in
        (forall id, id ∈ selectedRows tc' <-> id ∈ selectedRows tc /\ id <> value)
        /\ result_selectedRows r = selectedRows tc'
        /\ deselectedRecords r
           = map Some (filter (fun r => row_Id r ∉ selectedRows tc') data)
        /\ selectedRecords r
           = filter (fun r => row_Id r ∈ selectedRows tc') data).
Proof.
  split; [|split].
  - intros value' batch'. reflexivity.
  - cbn -[find_by_Id]. auto.
  - intros b batch. cbn -[set_has set_delete row_Id]. split; [|split; [reflexivity|split]].
    + intros id. apply set_delete_elem_of.
    + f_equal. apply filter_test. intros r.
      rewrite negb_true_iff, <- not_true_iff_false. now rewrite set_has_true.
    + apply filter_test. intros r. apply set_has_true.
Qed.

End Selection.

(** The two branches on a selection of R1 and R2 over the two rows. *)
Lemma rowDeselect_effect_witness :
  let tc := set_selectedRows [VStr "R1"; VStr "R2"] (initial []) in
  let data := [alpha_row; beta_row] in
  (let '(r, tc') := Service.handleRowSelection (rowDeselect (VStr "R1") []) tc data in
   selectedRows tc' = [] /\ result_selectedRows r = [] /\
   deselectedRecords r = [Some alpha_row; Some beta_row] /\
   selectedRecords r = [])
  /\ (let '(r, tc') :=
        Service.handleRowSelection (rowDeselect (VStr "R1") [beta_row]) tc data in
      (forall id, id ∈ selectedRows tc' <-> id ∈ selectedRows tc /\ id <> VStr "R1")
      /\ result_selectedRows r = [VStr "R2"]
      /\ deselectedRecords r = [Some alpha_row]
      /\ selectedRecords r = [beta_row]).
Proof.
  cbn zeta.
  destruct (rowDeselect_effect
              (set_selectedRows [VStr "R1"; VStr "R2"] (initial []))
              [alpha_row; beta_row] (VStr "R1")) as (_ & Hclear & Hone).
  split; [exact Hclear|].
  specialize (Hone beta_row []). cbn in Hone |- *.
  destruct Hone as (Hset & _). split; [exact Hset|]. repeat split.
Defined.

(** ** Properties of the comparator *)

Section Comparator.
Context `{Host}.

Lemma comparator_Ok (fieldName sortDirection : value) (a b : row)
    (valueA valueB : value) :
  resolveFieldValue a fieldName = Ok valueA ->
  resolveFieldValue b fieldName = Ok valueB ->
  comparator fieldName sortDirection a b
  = Ok (compare_values sortDirection valueA valueB).
Proof. intros Ha Hb. unfold comparator. now rewrite Ha, Hb. Qed.

Lemma compare_values_booleans (x y : bool) :
  compare_values (VStr "asc") (VBool x) (VBool y)
  = (if eqb x y then 0 else if x then -1 else 1)%Z
  /\ compare_values (VStr "desc") (VBool x) (VBool y)
     = (if eqb x y then 0 else if x then 1 else -1)%Z.
Proof. split; reflexivity. Qed.

(** C2 (as amended): on two boolean values the ascending comparison puts
    [true] before [false], and the descending one is its inverse. *)
Theorem comparator_booleans (fieldName : value) (a b : row) (x y : bool) :
  resolveFieldValue a fieldName = Ok (VBool x) ->
  resolveFieldValue b fieldName = Ok (VBool y) ->
  exists asc desc : Z,
    comparator fieldName (VStr "asc") a b = Ok asc /\
    comparator fieldName (VStr "desc") a b = Ok desc /\
    (asc < 0 <-> x = true /\ y = false)%Z /\
    (0 < asc <-> x = false /\ y = true)%Z /\
    (asc = 0 <-> x = y)%Z /\
    desc = (- asc)%Z.
Proof.
  intros Ha Hb.
  rewrite (comparator_Ok _ _ _ _ _ _ Ha Hb), (comparator_Ok _ _ _ _ _ _ Ha Hb).
  destruct (compare_values_booleans x y) as [-> ->].
  do 2 eexists. split; [reflexivity|]. split; [reflexivity|].
  destruct x, y; simpl; repeat split; intros; try lia; try tauto;
    try discriminate; intuition discriminate.
Qed.

Lemma path_step_nullish (segments : list string) (v : value) :
  is_nullish v = true -> is_nullish (fold_left path_step segments v) = true.
Proof.
  revert v. induction segments as [|key segments IH]; intros v Hv; [exact Hv|].
  simpl. apply IH. unfold path_step. destruct v; try discriminate; reflexivity.
Qed.

(** A path that reaches nothing at one of its segments resolves to
    [null] or [undefined]. *)
Lemma resolveFieldValue_missing (record : row) (path : string)
    (reached rest : list string) :
  split "." path = reached ++ rest ->
  is_nullish (fold_left path_step reached (VObj record)) = true ->
  exists v, resolveFieldValue record (VStr path) = Ok v /\ is_nullish v = true.
Proof.
  intros Hsplit Hnull. unfold resolveFieldValue.
  destruct (truthy (VStr path)); cbn [negb].
  - eexists. split; [reflexivity|].
    rewrite Hsplit, fold_left_app. now apply path_step_nullish.
  - exists VNull. split; reflexivity.
Qed.

End Comparator.

(** C2, as stated, fails: ascending, the row whose field is [false]
    compares greater than the one whose field is [true], and is sorted
    after it. *)
Lemma comparator_booleans_counterexample :
  resolveFieldValue inactive_row (VStr "Active") = Ok (VBool false)
  /\ resolveFieldValue active_row (VStr "Active") = Ok (VBool true)
  /\ @comparator example_host (VStr "Active") (VStr "asc") inactive_row active_row
     = Ok 1%Z
  /\ @handleSort_rows_try example_host (sort_event (VStr "Active") (VStr "asc"))
       [inactive_row; active_row]
     = Ok [active_row; inactive_row].
Proof. repeat split. Qed.

Lemma comparator_booleans_witness :
  exists asc desc : Z,
    @comparator example_host (VStr "Active") (VStr "asc") active_row inactive_row
    = Ok asc /\
    @comparator example_host (VStr "Active") (VStr "desc") active_row inactive_row
    = Ok desc /\
    (asc < 0 <-> true = true /\ false = false)%Z /\
    (0 < asc <-> true = false /\ false = true)%Z /\
    (asc = 0 <-> true = false)%Z /\
    desc = (- asc)%Z.
Proof.
  apply (@comparator_booleans example_host (VStr "Active") active_row inactive_row
           true false); reflexivity.
Defined.

(** ** Properties of the sort *)

Section ArraySort.
Context {A : Type}.
Implicit Types (cmp : A -> A -> result Z) (l s : list A).

Lemma insert_sorted_Permutation cmp x l s :
  insert_sorted cmp x l = Ok s -> s ≡ₚ x :: l.
Proof.
  revert s. induction l as [|y ys IH]; simpl; intros s Hs.
  - now injection Hs as <-.
  - destruct (cmp x y) as [c|e]; cbn in Hs; [|discriminate].
    destruct (c <=? 0)%Z.
    + now injection Hs as <-.
    + destruct (insert_sorted cmp x ys) as [rest|e]; cbn in Hs; [|discriminate].
      injection Hs as <-. rewrite (IH rest eq_refl). apply Permutation_swap.
Qed.

Lemma array_sort_Permutation cmp l s : array_sort cmp l = Ok s -> s ≡ₚ l.
Proof.
  revert s. induction l as [|x xs IH]; simpl; intros s Hs.
  - now injection Hs as <-.
  - destruct (array_sort cmp xs) as [sorted|e]; cbn in Hs; [|discriminate].
    apply insert_sorted_Permutation in Hs. rewrite Hs. now rewrite (IH sorted).
Qed.

(** A callback that never throws lets the sort return. *)
Lemma insert_sorted_total cmp x l :
  (forall a b, exists c, cmp a b = Ok c) -> exists s, insert_sorted cmp x l = Ok s.
Proof.
  intros Hcmp. induction l as [|y ys [rest IH]]; simpl; [eauto|].
  destruct (Hcmp x y) as [c ->]. cbn. destruct (c <=? 0)%Z; [eauto|].
  rewrite IH. cbn. eauto.
Qed.

Lemma array_sort_total cmp l :
  (forall a b, exists c, cmp a b = Ok c) -> exists s, array_sort cmp l = Ok s.
Proof.
  intros Hcmp. induction l as [|x xs [sorted IH]]; simpl; [eauto|].
  rewrite IH. cbn. now apply insert_sorted_total.
Qed.

End ArraySort.

(** Sorting pairs by one component sorts that component. *)
Lemma insert_sorted_map {A B : Type} (g : A -> B) (cmp : B -> B -> result Z)
    (x : A) (l : list A) :
  insert_sorted cmp (g x) (map g l)
  = match insert_sorted (fun p q => cmp (g p) (g q)) x l with
    | Ok s => Ok (map g s)
    | Throw e => Throw e
    end.
Proof.
  induction l as [|y ys IH]; simpl; [reflexivity|].
  destruct (cmp (g x) (g y)) as [c|e]; cbn; [|reflexivity].
  destruct (c <=? 0)%Z; [reflexivity|]. rewrite IH.
  destruct (insert_sorted _ x ys); reflexivity.
Qed.

Lemma array_sort_map {A B : Type} (g : A -> B) (cmp : B -> B -> result Z)
    (l : list A) :
  array_sort cmp (map g l)
  = match array_sort (fun p q => cmp (g p) (g q)) l with
    | Ok s => Ok (map g s)
    | Throw e => Throw e
    end.
Proof.
  induction l as [|x xs IH]; simpl; [reflexivity|]. rewrite IH.
  destruct (array_sort _ xs) as [sorted|e]; cbn; [|reflexivity].
  apply insert_sorted_map.
Qed.

Section Store.

Lemma alloc_rows_eq (h : heap) (rows : list row) :
  alloc_rows h rows = (seq (length h) (length rows), h ++ map CRow rows).
Proof.
  revert h. induction rows as [|r rs IH]; intros h; simpl.
  - now rewrite app_nil_r.
  - rewrite IH, length_app. simpl. rewrite Nat.add_1_r, <- app_assoc. reflexivity.
Qed.

Lemma read_rows_alloc (h : heap) (rows : list row) (tl : heap) :
  mapM (read_row (h ++ map CRow rows ++ tl)) (seq (length h) (length rows))
  = Some rows.
Proof.
  revert h. induction rows as [|r rs IH]; intros h; [reflexivity|].
  cbn [length seq map mapM].
  change ((CRow r :: map CRow rs) ++ tl) with (CRow r :: map CRow rs ++ tl).
  assert (Hr : read_row (h ++ CRow r :: map CRow rs ++ tl) (length h) = Some r).
  { unfold read_row. now rewrite list_lookup_middle by reflexivity. }
  rewrite Hr. specialize (IH (h ++ [CRow r])).
  rewrite length_app, Nat.add_1_r, <- app_assoc in IH.
  cbn [mbind option_bind]. change ([CRow r] ++ map CRow rs ++ tl)
    with (CRow r :: map CRow rs ++ tl) in IH.
  rewrite IH. reflexivity.
Qed.

Lemma preserved_refl (h : heap) : preserved h h.
Proof. intros l c Hl. exact Hl. Qed.

Lemma preserved_app (h tl : heap) : preserved h (h ++ tl).
Proof. intros l c Hl. now apply lookup_app_l_Some. Qed.

Lemma preserved_trans (h1 h2 h3 : heap) :
  preserved h1 h2 -> preserved h2 h3 -> preserved h1 h3.
Proof. intros H12 H23 l c Hl. auto. Qed.

Lemma preserved_insert (h tl : heap) (n : loc) (c : cell) :
  length h <= n -> preserved h (<[n := c]> (h ++ tl)).
Proof.
  intros Hn l c' Hl. pose proof (lookup_lt_Some _ _ _ Hl).
  rewrite list_lookup_insert_ne by lia. now apply lookup_app_l_Some.
Qed.

Lemma read_dataset_preserved (h h' : heap) (l : loc) (rows : list row) :
  preserved h h' -> read_dataset h l = Some rows -> read_dataset h' l = Some rows.
Proof.
  intros Hp. unfold read_dataset, read_array.
  destruct (h !! l) as [[r|elems]|] eqn:E; try discriminate.
  rewrite (Hp _ _ E). cbn. rewrite !mapM_Some. intros HF.
  eapply Forall2_impl; [exact HF|]. intros a r. cbv beta. unfold read_row.
  destruct (h !! a) as [[r'|?]|] eqn:Ea; try discriminate.
  now rewrite (Hp _ _ Ea).
Qed.

End Store.

Section CopyAndSort.

Lemma read_dataset_elems (h : heap) (l : loc) (rows : list row) :
  read_dataset h l = Some rows ->
  exists elems, read_array h l = Some elems /\ mapM (read_row h) elems = Some rows.
Proof.
  unfold read_dataset. destruct (read_array h l) as [elems|]; [|discriminate].
  cbn. eauto.
Qed.

(** The copy is a new array, after everything in the store, of new rows. *)
Lemma json_copy_eq (h : heap) (tableData : loc) (rows : list row) :
  read_dataset h tableData = Some rows ->
  json_copy h tableData
  = Ok (length h + length rows,
        h ++ map CRow (map json_clone_row rows)
          ++ [CArr (seq (length h) (length rows))]).
Proof.
  intros Hd. unfold json_copy, alloc. rewrite Hd, alloc_rows_eq.
  rewrite !length_map, length_app, !length_map, <- app_assoc. reflexivity.
Qed.

Lemma read_copy (h : heap) (rows : list row) :
  let h1 := h ++ map CRow rows ++ [CArr (seq (length h) (length rows))] in
  read_array h1 (length h + length rows) = Some (seq (length h) (length rows))
  /\ mapM (read_row h1) (seq (length h) (length rows)) = Some rows.
Proof.
  split.
  - unfold read_array. rewrite app_assoc.
    rewrite list_lookup_middle; [reflexivity|].
    now rewrite length_app, length_map.
  - apply read_rows_alloc.
Qed.

(** After the sort in place the array holds the references in the order
    of the sorted rows. *)
Lemma read_sorted (h : heap) (arr : loc) (elems : list loc) (rows : list row)
    (sorted : list (loc * row)) :
  read_array h arr = Some elems ->
  mapM (read_row h) elems = Some rows ->
  sorted ≡ₚ zip elems rows ->
  read_dataset (<[arr := CArr (map fst sorted)]> h) arr = Some (map snd sorted).
Proof.
  intros Ha Hr Hperm. unfold read_dataset, read_array in *.
  destruct (h !! arr) as [[r|elems']|] eqn:Earr; try discriminate.
  injection Ha as ->.
  rewrite list_lookup_insert_eq by (eapply lookup_lt_Some; eassumption).
  cbn. apply mapM_Some. apply mapM_Some in Hr.
  assert (Hall : Forall (fun p => read_row h (fst p) = Some (snd p)) (zip elems rows)).
  { clear -Hr. induction Hr; simpl; constructor; auto. }
  rewrite <- Hperm in Hall.
  assert (Hkeep : forall l r,
             read_row h l = Some r ->
             read_row (<[arr := CArr (map fst sorted)]> h) l = Some r).
  { intros l r. unfold read_row. destruct (decide (arr = l)) as [->|Hne].
    - now rewrite Earr.
    - now rewrite list_lookup_insert_ne. }
  revert Hkeep. generalize (<[arr := CArr (map fst sorted)]> h). intros h2 Hkeep.
  clear -Hall Hkeep.
  induction Hall as [|[l r] sorted Hl _ IH]; simpl; constructor; auto.
Qed.

Lemma zip_fst_snd (elems : list loc) (rows : list row) :
  length elems = length rows ->
  map fst (zip elems rows) = elems /\ map snd (zip elems rows) = rows.
Proof.
  revert rows. induction elems as [|l elems IH]; intros [|r rows]; simpl;
    try discriminate; [auto|].
  intros [= Hlen]. destruct (IH rows Hlen) as [-> ->]. auto.
Qed.

End CopyAndSort.

Section HandleSortProperties.
Context `{Host}.

(** The two readings of [handleSort] agree: the reference it returns holds
    the rows that [handleSort_rows] returns, the component is left the same
    way, and nothing that was in the store has changed. *)
Lemma handleSort_rows_agree (event : value) (tc : component) (tableData : loc)
    (h : heap) (rows : list row) :
  read_dataset h tableData = Some rows ->
  let '(res, tc', h') := Service.handleSort event tc tableData h in
  read_dataset h' res = Some (fst (handleSort_rows event tc rows))
  /\ tc' = snd (handleSort_rows event tc rows)
  /\ preserved h h'.
Proof.
  intros Hd. unfold Service.handleSort, handleSort_try, handleSort_rows, handleSort_rows_try.
  destruct (sort_spec event) as [[fieldName sortDirection]|e]; cbn.
  2: { split; [exact Hd|]. split; [reflexivity|apply preserved_refl]. }
  rewrite (json_copy_eq h tableData rows Hd).
  set (cloned := map json_clone_row rows).
  set (arr := length h + length rows).
  set (h1 := h ++ map CRow cloned ++ [CArr (seq (length h) (length rows))]).
  assert (Hlen : length rows = length cloned) by (unfold cloned; now rewrite length_map).
  destruct (read_copy h cloned) as [Harr Hrows]. rewrite <- Hlen in Harr, Hrows.
  fold h1 arr in Harr, Hrows.
  unfold sort_in_place, read_dataset. rewrite Harr. cbn. rewrite Hrows.
  destruct (zip_fst_snd (seq (length h) (length rows)) cloned) as [_ Hsnd].
  { now rewrite length_seq. }
  pose proof (array_sort_map snd (comparator fieldName sortDirection)
                (zip (seq (length h) (length rows)) cloned)) as Hmap.
  rewrite Hsnd in Hmap. rewrite Hmap.
  destruct (array_sort _ (zip (seq (length h) (length rows)) cloned))
    as [sorted|e] eqn:Esort; cbn.
  - split; [|split; [reflexivity|]].
    + apply (read_sorted h1 arr (seq (length h) (length rows)) cloned);
        [exact Harr|exact Hrows|].
      eapply array_sort_Permutation; exact Esort.
    + apply preserved_insert. unfold arr. lia.
  - split; [|split; [reflexivity|apply preserved_app]].
    eapply read_dataset_preserved; [apply preserved_app|exact Hd].
Qed.

Lemma handleSort_rows_length (event : value) (tc : component) (rows : list row) :
  length (fst (handleSort_rows event tc rows)) = length rows.
Proof.
  unfold handleSort_rows, handleSort_rows_try. cbn [fst].
  destruct (sort_spec event) as [[fieldName sortDirection]|e]; cbn; [|reflexivity].
  destruct (array_sort _ _) as [sorted|e] eqn:Esort; [|reflexivity].
  apply array_sort_Permutation in Esort. rewrite Esort. apply length_map.
Qed.

(** With a text as field path nothing in the [try] block throws. *)
Lemma comparator_text_total (path : string) (sortDirection : value) (a b : row) :
  exists c, comparator (VStr path) sortDirection a b = Ok c.
Proof.
  unfold comparator, resolveFieldValue.
  destruct (negb (truthy (VStr path))); cbn; eauto.
Qed.

(** What [handleSort] does when nothing throws. *)
Lemma handleSort_sorted (event : value) (tc : component) (tableData : loc)
    (h : heap) (rows : list row) (fieldName sortDirection : value)
    (sorted : list (loc * row)) :
  read_dataset h tableData = Some rows ->
  sort_spec event = Ok (fieldName, sortDirection) ->
  array_sort (fun p q => comparator fieldName sortDirection (snd p) (snd q))
    (zip (seq (length h) (length rows)) (map json_clone_row rows)) = Ok sorted ->
  Service.handleSort event tc tableData h
  = (length h + length rows, set_sorted fieldName sortDirection tc,
     <[length h + length rows := CArr (map fst sorted)]>
       (h ++ map CRow (map json_clone_row rows)
          ++ [CArr (seq (length h) (length rows))])).
Proof.
  intros Hd Hspec Hsort. unfold Service.handleSort, handleSort_try.
  rewrite Hspec, (json_copy_eq h tableData rows Hd).
  destruct (read_copy h (map json_clone_row rows)) as [Harr Hrows].
  rewrite length_map in Harr, Hrows.
  unfold sort_in_place, read_dataset. rewrite Harr. cbn. rewrite Hrows, Hsort.
  reflexivity.
Qed.

(** C7: when something in the [try] block of [handleSort] throws, the
    function still returns; what it returns is the reference to the dataset
    it was given, and nothing that was in the store has changed. *)
Theorem handleSort_catch (event : value) (tc : component) (tableData : loc)
    (h : heap) (e : error) :
  fst (fst (handleSort_try event tc tableData h)) = Throw e ->
  exists tc' h',
    Service.handleSort event tc tableData h = (tableData, tc', h')
    /\ preserved h h'
    /\ read_dataset h' tableData = read_dataset h tableData.
Proof.
  unfold Service.handleSort. intros Hthrow.
  destruct (handleSort_try event tc tableData h) as [[r tc'] h'] eqn:Etry.
  cbn in Hthrow. subst r. exists tc', h'. split; [reflexivity|].
  assert (Hp : preserved h h').
  { unfold handleSort_try in Etry.
    destruct (sort_spec event) as [[fieldName sortDirection]|e0].
    2: { injection Etry as _ _ <-. apply preserved_refl. }
    destruct (json_copy h tableData) as [[cloned h1]|e1] eqn:Ecopy.
    2: { injection Etry as _ _ <-. apply preserved_refl. }
    destruct (sort_in_place _ cloned h1) as [h2|e2]; [discriminate|].
    injection Etry as _ _ <-. unfold json_copy in Ecopy.
    destruct (read_dataset h tableData) as [rows|]; [|discriminate].
    rewrite alloc_rows_eq in Ecopy. injection Ecopy as _ <-.
    rewrite <- app_assoc. apply preserved_app. }
  split; [exact Hp|].
  destruct (read_dataset h tableData) as [rows|] eqn:Ed.
  - now apply (read_dataset_preserved h h').
  - unfold handleSort_try in Etry.
    destruct (sort_spec event) as [[fieldName sortDirection]|e0].
    2: { injection Etry as _ _ <-. exact Ed. }
    unfold json_copy in Etry. rewrite Ed in Etry. injection Etry as _ _ <-.
    exact Ed.
Qed.

(** C8: [handleSort] changes nothing that was in the store, the dataset it
    was given least of all, and the dataset it returns has as many rows.
    With a text as field path the array it returns and the rows in it are
    new objects. *)
Theorem handleSort_frame (event : value) (tc : component) (tableData : loc)
    (h : heap) (rows : list row) :
  read_dataset h tableData = Some rows ->
  exists res tc' h' sorted,
    Service.handleSort event tc tableData h = (res, tc', h')
    /\ preserved h h'
    /\ read_dataset h' tableData = Some rows
    /\ read_dataset h' res = Some sorted
    /\ length sorted = length rows
    /\ (forall path sortDirection,
          sort_spec event = Ok (VStr path, sortDirection) ->
          exists elems,
            read_array h' res = Some elems /\ length h <= res /\
            Forall (fun l => length h <= l) elems).
Proof.
  intros Hd. pose proof (handleSort_rows_agree event tc tableData h rows Hd) as Hagree.
  destruct (Service.handleSort event tc tableData h) as [[res tc'] h'] eqn:Esort.
  destruct Hagree as (Hres & _ & Hp).
  exists res, tc', h', (fst (handleSort_rows event tc rows)).
  split; [reflexivity|]. split; [exact Hp|].
  split; [now apply (read_dataset_preserved h h')|].
  split; [exact Hres|]. split; [apply handleSort_rows_length|].
  intros path sortDirection Hspec.
  destruct (array_sort_total
              (fun p q => comparator (VStr path) sortDirection (snd p) (snd q))
              (zip (seq (length h) (length rows)) (map json_clone_row rows)))
    as [sorted Hsorted].
  { intros a b. apply comparator_text_total. }
  rewrite (handleSort_sorted event tc tableData h rows _ _ sorted Hd Hspec Hsorted)
    in Esort.
  injection Esort as <- _ <-. exists (map fst sorted).
  split; [|split; [lia|]].
  - unfold read_array. rewrite list_lookup_insert_eq; [reflexivity|].
    rewrite !length_app, !length_map. simpl. lia.
  - apply array_sort_Permutation in Hsorted. rewrite Hsorted.
    destruct (zip_fst_snd (seq (length h) (length rows)) (map json_clone_row rows))
      as [-> _]; [now rewrite length_seq, length_map|].
    apply Forall_seq. intros j Hj. lia.
Qed.

End HandleSortProperties.

Lemma handleSort_catch_witness :
  exists tc' h',
    @Service.handleSort example_host (VObj []) (initial []) 2 example_heap
    = (2, tc', h')
    /\ preserved example_heap h'
    /\ read_dataset h' 2 = read_dataset example_heap 2.
Proof.
  apply (@handleSort_catch example_host (VObj []) (initial []) 2 example_heap
           TypeError).
  reflexivity.
Defined.

(** A field name that is a number: the callback throws at the first
    comparison, and the caller gets its own array back. *)
Example numeric_field_name_example :
  fst (fst (@handleSort_try example_host (sort_event (VNum 5) (VStr "asc"))
              (initial []) 2 example_heap)) = Throw TypeError
  /\ fst (fst (@Service.handleSort example_host (sort_event (VNum 5) (VStr "asc"))
                 (initial []) 2 example_heap)) = 2.
Proof. split; reflexivity. Qed.

Lemma handleSort_frame_witness :
  exists res tc' h' sorted,
    @Service.handleSort example_host (sort_event (VStr "Active") (VStr "asc"))
      (initial []) 2 example_heap = (res, tc', h')
    /\ preserved example_heap h'
    /\ read_dataset h' 2 = Some [inactive_row; active_row]
    /\ read_dataset h' res = Some sorted
    /\ length sorted = length [inactive_row; active_row]
    /\ (forall path sortDirection,
          sort_spec (sort_event (VStr "Active") (VStr "asc"))
          = Ok (VStr path, sortDirection) ->
          exists elems,
            read_array h' res = Some elems /\ length example_heap <= res /\
            Forall (fun l => length example_heap <= l) elems).
Proof.
  apply (@handleSort_frame example_host (sort_event (VStr "Active") (VStr "asc"))
           (initial []) 2 example_heap [inactive_row; active_row]).
  reflexivity.
Defined.

(** The run of the example: the copy is sorted at address 5, the array at
    address 2 is as it was. *)
Example sorted_copy_example :
  let '(res, _, h') :=
    @Service.handleSort example_host (sort_event (VStr "Active") (VStr "asc"))
      (initial []) 2 example_heap in
  res = 5 /\ read_array h' 5 = Some [4; 3] /\ read_array h' 2 = Some [0; 1]
  /\ read_dataset h' 5 = Some [active_row; inactive_row]
  /\ read_dataset h' 2 = Some [inactive_row; active_row].
Proof. cbn. repeat split. Qed.

Section NullsLast.
Context `{Host}.

Lemma comparator_null_left (fieldName sortDirection : value) (x y : row) (c : Z) :
  null_valued fieldName x = true ->
  comparator fieldName sortDirection x y = Ok c ->
  c = (if null_valued fieldName y then 0 else 1)%Z.
Proof.
  unfold null_valued, comparator.
  destruct (resolveFieldValue x fieldName) as [vx|e]; [|discriminate].
  destruct (resolveFieldValue y fieldName) as [vy|e]; cbn; [|discriminate].
  intros Hx [= <-]. unfold compare_values. rewrite Hx.
  destruct (is_nullish vy); reflexivity.
Qed.

Lemma comparator_null_right (fieldName sortDirection : value) (x y : row) (c : Z) :
  null_valued fieldName x = false ->
  null_valued fieldName y = true ->
  comparator fieldName sortDirection x y = Ok c ->
  c = (-1)%Z.
Proof.
  unfold null_valued, comparator.
  destruct (resolveFieldValue x fieldName) as [vx|e]; cbn; [|discriminate].
  destruct (resolveFieldValue y fieldName) as [vy|e]; cbn; [|discriminate].
  intros Hx Hy [= <-]. unfold compare_values. now rewrite Hx, Hy.
Qed.

Lemma insert_sorted_nulls_last (fieldName sortDirection : value) (x : row)
    (rows sorted : list row) :
  nulls_last fieldName rows ->
  insert_sorted (comparator fieldName sortDirection) x rows = Ok sorted ->
  nulls_last fieldName sorted.
Proof.
  intros (valued & missing & -> & Hv & Hm). revert sorted.
  induction valued as [|y valued IH]; intros sorted Hs.
  - (* only rows without a value are left *)
    destruct (null_valued fieldName x) eqn:Ex.
    + exists [], sorted. split; [reflexivity|]. split; [reflexivity|].
      destruct missing as [|y missing]; cbn in Hs.
      * injection Hs as <-. cbn. now rewrite Ex.
      * destruct (comparator fieldName sortDirection x y) as [c|e] eqn:Ec;
          cbn in Hs; [|discriminate].
        apply (comparator_null_left _ _ _ _ _ Ex) in Ec.
        cbn in Hm. apply andb_true_iff in Hm as [Hy Hm]. rewrite Hy in Ec.
        subst c. cbn in Hs. injection Hs as <-. cbn. now rewrite Ex, Hy, Hm.
    + exists [x], missing. split; [|split; [cbn; now rewrite Ex|exact Hm]].
      destruct missing as [|y missing]; cbn in Hs.
      * now injection Hs as <-.
      * destruct (comparator fieldName sortDirection x y) as [c|e] eqn:Ec;
          cbn in Hs; [|discriminate].
        cbn in Hm. apply andb_true_iff in Hm as [Hy Hm].
        apply (comparator_null_right _ _ _ _ _ Ex Hy) in Ec. subst c.
        cbn in Hs. now injection Hs as <-.
  - cbn in Hv. apply andb_true_iff in Hv as [Hy Hv]. cbn in Hs.
    destruct (comparator fieldName sortDirection x y) as [c|e] eqn:Ec;
      cbn in Hs; [|discriminate].
    destruct (c <=? 0)%Z eqn:Ele.
    + injection Hs as <-. exists (x :: y :: valued), missing.
      split; [reflexivity|]. split; [|exact Hm]. cbn. rewrite Hy, Hv.
      destruct (null_valued fieldName x) eqn:Ex; [|reflexivity].
      apply (comparator_null_left _ _ _ _ _ Ex) in Ec.
      apply negb_true_iff in Hy. rewrite Hy in Ec. subst c. discriminate.
    + destruct (insert_sorted _ x (valued ++ missing)) as [rest|e] eqn:Erest;
        cbn in Hs; [|discriminate].
      injection Hs as <-.
      destruct (IH Hv rest eq_refl) as (valued' & missing' & -> & Hv' & Hm').
      exists (y :: valued'), missing'. split; [reflexivity|].
      split; [|exact Hm']. cbn. now rewrite Hy, Hv'.
Qed.

(** In the sorted array the rows whose sort key has no value come after
    all the others, whatever the direction. *)
Lemma array_sort_nulls_last (fieldName sortDirection : value)
    (rows sorted : list row) :
  array_sort (comparator fieldName sortDirection) rows = Ok sorted ->
  nulls_last fieldName sorted.
Proof.
  revert sorted. induction rows as [|x rows IH]; cbn; intros sorted Hs.
  - injection Hs as <-. exists [], []. auto.
  - destruct (array_sort _ rows) as [tl|e]; cbn in Hs; [|discriminate].
    eapply insert_sorted_nulls_last; [|exact Hs]. now apply IH.
Qed.

(** C4: a row whose value is [null] or missing compares greater than a
    row with a value and equal to another such row, whatever the direction;
    a field path that reaches nothing resolves to such a value; and in the
    sorted array the rows without a value come after all the others. *)
Theorem comparator_nulls_last :
  (forall (fieldName sortDirection : value) (a b : row) (valueA valueB : value),
     resolveFieldValue a fieldName = Ok valueA ->
     resolveFieldValue b fieldName = Ok valueB ->
     is_nullish valueA = true ->
     is_nullish valueB = false ->
     comparator fieldName sortDirection a b = Ok 1%Z /\
     comparator fieldName sortDirection b a = Ok (-1)%Z)
  /\ (forall (fieldName sortDirection : value) (a b : row) (valueA valueB : value),
        resolveFieldValue a fieldName = Ok valueA ->
        resolveFieldValue b fieldName = Ok valueB ->
        is_nullish valueA = true ->
        is_nullish valueB = true ->
        comparator fieldName sortDirection a b = Ok 0%Z)
  /\ (forall (record : row) (path : string) (reached rest : list string),
        split "." path = reached ++ rest ->
        is_nullish (fold_left path_step reached (VObj record)) = true ->
        exists v,
          resolveFieldValue record (VStr path) = Ok v /\ is_nullish v = true)
  /\ (forall (fieldName sortDirection : value) (rows sorted : list row),
        array_sort (comparator fieldName sortDirection) rows = Ok sorted ->
        nulls_last fieldName sorted).
Proof.
  split; [|split; [|split; [exact resolveFieldValue_missing
                           |exact array_sort_nulls_last]]].
  - intros fieldName sortDirection a b valueA valueB Ha Hb HA HB.
    rewrite (comparator_Ok _ _ _ _ _ _ Ha Hb), (comparator_Ok _ _ _ _ _ _ Hb Ha).
    unfold compare_values. rewrite HA, HB. cbn. auto.
  - intros fieldName sortDirection a b valueA valueB Ha Hb HA HB.
    rewrite (comparator_Ok _ _ _ _ _ _ Ha Hb).
    unfold compare_values. rewrite HA, HB. reflexivity.
Qed.

End NullsLast.

Lemma comparator_nulls_last_witness :
  (@comparator example_host (VStr "Active") (VStr "desc") unknown_row active_row
   = Ok 1%Z /\
   @comparator example_host (VStr "Active") (VStr "desc") active_row unknown_row
   = Ok (-1)%Z)
  /\ @comparator example_host (VStr "Account.Name") (VStr "asc") unknown_row
       active_row = Ok 0%Z
  /\ (exists v,
        resolveFieldValue unknown_row (VStr "Account.Name") = Ok v /\
        is_nullish v = true)
  /\ nulls_last (VStr "Active") [inactive_row; active_row; unknown_row].
Proof.
  destruct (@comparator_nulls_last example_host)
    as (Hlast & Hequal & Hmissing & Hsorted).
  split; [|split; [|split]].
  - apply (Hlast (VStr "Active") (VStr "desc") unknown_row active_row
             VUndefined (VBool true)); reflexivity.
  - apply (Hequal (VStr "Account.Name") (VStr "asc") unknown_row active_row
             VNull VNull); reflexivity.
  - apply (Hmissing unknown_row "Account.Name" ["Account"] ["Name"]); reflexivity.
  - apply (Hsorted (VStr "Active") (VStr "desc")
             [unknown_row; active_row; inactive_row]).
    reflexivity.
Defined.

(** ** The order of a sort by a numeric key; copies of JSON data *)

Section SortOrder.
Context `{Host}.

Lemma compare_values_mirror (d A B : value) :
  d <> VStr "asc" -> is_nullish A = false -> is_nullish B = false ->
  compare_values d A B = compare_values (VStr "asc") B A.
Proof.
  intros Hd HA HB. unfold compare_values. rewrite HA, HB. cbn [andb].
  assert (Ed : strict_equals d (VStr "asc") = false).
  { unfold strict_equals. now apply bool_decide_eq_false. }
  rewrite Ed.
  assert (Ea : strict_equals (VStr "asc") (VStr "asc") = true)
    by now apply strict_equals_true.
  rewrite Ea.
  destruct A, B; try discriminate; cbn; try reflexivity.
  match goal with |- context [eqb ?x ?y] => destruct x, y; reflexivity end.
Qed.

End SortOrder.

Section SortByKey.
Context {A : Type} (cmp : A -> A -> result Z) (g : A -> Z).

Lemma insert_sorted_by_key (x : A) (l : list A) :
  Forall (fun y => cmp x y = Ok (g x - g y)%Z) l ->
  StronglySorted (fun a b => (g a <= g b)%Z) l ->
  exists s, insert_sorted cmp x l = Ok s /\ s ≡ₚ x :: l /\
            StronglySorted (fun a b => (g a <= g b)%Z) s.
Proof.
  induction l as [|y ys IH]; intros Hc Hs; cbn.
  - exists [x]. split; [reflexivity|]. split; [reflexivity|].
    constructor; constructor.
  - apply Forall_cons in Hc as [Hxy Hc]. rewrite Hxy. cbn.
    apply StronglySorted_inv in Hs as [Hys Hy].
    destruct (g x - g y <=? 0)%Z eqn:E.
    + exists (x :: y :: ys). split; [reflexivity|]. split; [reflexivity|].
      apply Z.leb_le in E. constructor; [constructor; assumption|].
      constructor; [lia|]. eapply List.Forall_impl; [|exact Hy].
      intros z Hz. cbv beta in *. lia.
    + destruct (IH Hc Hys) as (s & -> & Hp & Hss). cbn.
      exists (y :: s). split; [reflexivity|]. split.
      * rewrite Hp. apply Permutation_swap.
      * constructor; [exact Hss|]. rewrite Hp. apply Z.leb_gt in E.
        constructor; [lia|exact Hy].
Qed.

Lemma array_sort_by_key (l : list A) :
  (forall x y, x ∈ l -> y ∈ l -> cmp x y = Ok (g x - g y)%Z) ->
  exists s, array_sort cmp l = Ok s /\ s ≡ₚ l /\
            StronglySorted (fun a b => (g a <= g b)%Z) s.
Proof.
  induction l as [|x xs IH]; intros Hc; cbn.
  - exists []. split; [reflexivity|]. split; [reflexivity|constructor].
  - destruct IH as (s & -> & Hp & Hs).
    { intros a b Ha Hb. apply Hc; now right. }
    cbn. destruct (insert_sorted_by_key x s) as (s' & Hi & Hp' & Hs').
    + apply Forall_forall. intros y Hy. rewrite Hp in Hy.
      apply Hc; [left|now right].
    + exact Hs.
    + exists s'. split; [exact Hi|]. split; [|exact Hs'].
      now rewrite Hp', Hp.
Qed.

End SortByKey.

Lemma json_clone_json_data (v : value) : json_data v = true -> json_clone v = v.
Proof.
  revert v. fix IH 1. intros [| | | | |elems|props]; cbn; try reflexivity.
  - discriminate.
  - intros Hall. f_equal. induction elems as [|e elems IHe]; [reflexivity|].
    cbn in Hall. apply andb_true_iff in Hall as [He Hall]. cbn.
    now rewrite (IH e He), IHe.
  - intros Hall. f_equal. induction props as [|[k w] props IHp]; [reflexivity|].
    cbn in Hall. apply andb_true_iff in Hall as [Hw Hall].
    rewrite IHp by exact Hall. rewrite (IH w Hw).
    destruct w; try reflexivity. discriminate.
Qed.

Lemma json_clone_rows (rows : list row) :
  forallb json_row rows = true -> map json_clone_row rows = rows.
Proof.
  induction rows as [|r rows IH]; cbn [forallb map]; [reflexivity|]. intros Hall.
  apply andb_true_iff in Hall as [Hr Hall]. rewrite (IH Hall). f_equal.
  unfold json_clone_row. now rewrite (json_clone_json_data (VObj r) Hr).
Qed.

Section SortNumbers.
Context `{Host}.

Lemma compare_values_numbers (a b : Z) :
  compare_values (VStr "asc") (VNum a) (VNum b) = (a - b)%Z
  /\ compare_values (VStr "desc") (VNum a) (VNum b) = (b - a)%Z.
Proof. split; reflexivity. Qed.

(** Any direction other than [asc] sorts numbers downwards. *)
Lemma compare_values_numbers_down (d : value) (a b : Z) :
  d <> VStr "asc" -> compare_values d (VNum a) (VNum b) = (b - a)%Z.
Proof.
  intros Hd. rewrite (compare_values_mirror d (VNum a) (VNum b) Hd eq_refl eq_refl).
  apply compare_values_numbers.
Qed.

(** Rows with a number as sort key come out in the order of the key, upwards
    when the direction is [asc] and downwards otherwise. *)
Lemma array_sort_numeric (fieldName d : value) (rows : list row)
    (key : row -> Z) :
  Forall (fun r => resolveFieldValue r fieldName = Ok (VNum (key r))) rows ->
  exists s,
    array_sort (comparator fieldName d) rows = Ok s /\ s ≡ₚ rows /\
    StronglySorted
      (fun a b => if strict_equals d (VStr "asc") then (key a <= key b)%Z
                  else (key b <= key a)%Z) s.
Proof.
  intros Hall.
  assert (Hkey : forall r, r ∈ rows ->
                   resolveFieldValue r fieldName = Ok (VNum (key r)))
    by now apply Forall_forall.
  destruct (strict_equals d (VStr "asc")) eqn:Ed.
  - apply strict_equals_true in Ed. subst d.
    apply array_sort_by_key. intros x y Hx Hy.
    rewrite (comparator_Ok _ _ _ _ _ _ (Hkey x Hx) (Hkey y Hy)).
    now rewrite (proj1 (compare_values_numbers _ _)).
  - assert (Hd : d <> VStr "asc").
    { unfold strict_equals in Ed. now apply bool_decide_eq_false in Ed. }
    destruct (array_sort_by_key (comparator fieldName d)
                (fun r => (- key r)%Z) rows) as (s & Hs & Hp & Hss).
    { intros x y Hx Hy.
      rewrite (comparator_Ok _ _ _ _ _ _ (Hkey x Hx) (Hkey y Hy)).
      rewrite (compare_values_numbers_down d _ _ Hd). f_equal. lia. }
    exists s. split; [exact Hs|]. split; [exact Hp|].
    eapply StronglySorted_ind with (P := StronglySorted _); [..|exact Hss].
    + constructor.
    + intros a l _ IH Ha. constructor; [exact IH|].
      eapply List.Forall_impl; [|exact Ha]. intros z Hz. cbv beta in *. lia.
Qed.

End SortNumbers.

(** ** Properties of the component *)

Section Window.
Context `{Host}.

Lemma slice_0 {A : Type} (l : list A) (n : nat) : slice l 0 n = take n l.
Proof. unfold slice. now rewrite Nat.sub_0_r, drop_0. Qed.

Lemma slice_next {A : Type} (l : list A) (k n : nat) :
  slice l k (k + n) = take n (drop k l).
Proof. unfold slice. f_equal. lia. Qed.

(** Appending the next page to a prefix gives a longer prefix. *)
Lemma load_more_prefix {A : Type} (shown l : list A) (n : nat) :
  shown `prefix_of` l ->
  shown ++ slice l (length shown) (length shown + n) = take (length shown + n) l.
Proof.
  intros [rest ->]. rewrite slice_next, drop_app_length.
  now rewrite take_app_add.
Qed.

Lemma handleLoadMore_window (c : component) :
  dataTableValue (handleLoadMore c) = dataTableValue c
  /\ dataToShow (handleLoadMore c)
     = dataToShow c
       ++ slice (dataTableValue c) (length (dataToShow c))
            (length (dataToShow c) + PAGE_SIZE).
Proof. split; reflexivity. Qed.

Lemma handleSearch_window (c c' : component) :
  handleSearch c = Ok c' ->
  dataToShow c' = take PAGE_SIZE (dataTableValue c').
Proof.
  unfold handleSearch. destruct (negb (searchValue c =? "")).
  - destruct (dataTableSearchResult _ _ _) as [found|e]; cbn; [|discriminate].
    intros [= <-]. reflexivity.
  - cbn. intros [= <-]. reflexivity.
Qed.

Lemma handleSort_window (event : value) (c : component) :
  dataToShow (Component.handleSort event c)
  = take PAGE_SIZE (dataTableValue (Component.handleSort event c)).
Proof. reflexivity. Qed.

Lemma set_tableData_window (value : tableData_value) (c : component) :
  dataToShow c `prefix_of` dataTableValue c ->
  dataToShow (set_tableData value c)
  `prefix_of` dataTableValue (set_tableData value c).
Proof.
  intros Hc. destruct value as [| |rows]; cbn.
  - exact Hc.
  - destruct (length (_tableData c) =? 0)%nat; exact Hc.
  - apply prefix_take.
Qed.

(** The service touches the selection of the component and nothing
    else. *)
Lemma service_selection_frame (event : selection_event) (tc : component)
    (data : list row) :
  exists s, snd (Service.handleRowSelection event tc data) = set_selectedRows s tc.
Proof.
  unfold Service.handleRowSelection.
  repeat match goal with |- context [if ?b then _ else _] => destruct b end;
    eexists; reflexivity.
Qed.

Lemma handleRowSelection_window (event : option selection_event) (c : component) :
  dataToShow (fst (Component.handleRowSelection event c)) = dataToShow c
  /\ dataTableValue (fst (Component.handleRowSelection event c)) = dataTableValue c
  /\ _tableData (fst (Component.handleRowSelection event c)) = _tableData c.
Proof.
  destruct event as [event|]; [|auto]. unfold Component.handleRowSelection.
  destruct (service_selection_frame event c (_tableData c)) as [s Hs].
  destruct (Service.handleRowSelection event c (_tableData c)) as [r tc'].
  cbn in Hs. subst tc'. auto.
Qed.

(** Every operation keeps the window a prefix of the dataset. *)
Lemma step_window (op : operation) (c : component) :
  dataToShow c `prefix_of` dataTableValue c ->
  dataToShow (step op c) `prefix_of` dataTableValue (step op c).
Proof.
  intros Hc.
  destruct op as [v|fields|v|ev| |ev|available readOnly|target|keyCode target
                 |ev| | |ev]; cbn [step].
  - now apply set_tableData_window.
  - exact Hc.
  - destruct v; exact Hc.
  - destruct (handleRowSelection_window ev c) as (-> & -> & _). exact Hc.
  - destruct (handleLoadMore_window c) as [-> ->].
    rewrite (load_more_prefix _ _ PAGE_SIZE Hc). apply prefix_take.
  - rewrite handleSort_window. apply prefix_take.
  - unfold renderedCallback.
    repeat match goal with |- context [if ?b then _ else _] => destruct b end;
      exact Hc.
  - unfold handleSearchKeyChange. destruct (negb (blank target)); exact Hc.
  - unfold handelSearchKey. destruct (keyCode =? ENTER_KEY_CODE)%Z; [|exact Hc].
    destruct (handleSearch _) as [c'|e] eqn:E; [|exact Hc].
    rewrite (handleSearch_window _ _ E). apply prefix_take.
  - unfold handleSearchTextPaste.
    destruct (handleSearch _) as [c'|e] eqn:E; [|exact Hc].
    rewrite (handleSearch_window _ _ E). apply prefix_take.
  - destruct (handleSearch c) as [c'|e] eqn:E; [|exact Hc].
    rewrite (handleSearch_window _ _ E). apply prefix_take.
  - exact Hc.
  - unfold handleShowSelectedTableSort, handleSort_rows.
    destruct (sort_spec ev) as [[fieldName sortDirection]|e]; exact Hc.
Qed.

Lemma reachable_window (c : component) :
  reachable c -> dataToShow c `prefix_of` dataTableValue c.
Proof.
  induction 1 as [fields|op c _ IH].
  - apply prefix_nil.
  - now apply step_window.
Qed.

(** What the sort of the component shows: the rows the service returns for
    the data the component was given. *)
Lemma handleSort_dataset (event : value) (c : component) :
  dataTableValue (Component.handleSort event c)
  = fst (handleSort_rows event c (_tableData c)).
Proof. reflexivity. Qed.

(** What a search shows: the data the component was given when there is no
    search text, else the rows the service finds in it. *)
Lemma handleSearch_dataset (c c' : component) :
  handleSearch c = Ok c' ->
  (searchValue c = "" -> dataTableValue c' = _tableData c)
  /\ (searchValue c <> "" ->
      dataTableSearchResult (formatSearchString (searchValue c))
        (searchableFields c) (_tableData c) = Ok (dataTableValue c')).
Proof.
  unfold handleSearch. destruct (String.eqb_spec (searchValue c) "") as [E|E].
  - cbn. intros [= <-]. split; [reflexivity|]. intros Hne. now destruct Hne.
  - cbn. destruct (dataTableSearchResult _ _ _) as [found|e]; cbn; [|discriminate].
    intros [= <-]. split; [intros Hq; now destruct E|reflexivity].
Qed.

(** C9: in every state the component can be in, the visible window is a
    prefix of the working dataset, hence no longer than it; load-more
    appends the next page.  A sort makes the working dataset the rows the
    service returns for the data the component was given (as many rows, the
    sorted copies when the sort returns, in the order of the key when the
    key is a number), and a search makes it the rows of that data the
    service finds (in the order of the data, the matching rows and no
    other); both reset the window to the first page of the new dataset.
    With twenty rows the first window holds fifteen, and all twenty after
    one load-more, in their order; a sort by rank downwards then shows the
    rows of rank 20 to 6, and a search for [r1] the eleven rows whose
    identifier contains it. *)
Theorem visible_window_prefix :
  (forall c, reachable c ->
     dataToShow c `prefix_of` dataTableValue c /\
     length (dataToShow c) <= length (dataTableValue c))
  /\ (forall c, reachable c ->
        dataTableValue (handleLoadMore c) = dataTableValue c /\
        dataToShow (handleLoadMore c)
        = take (length (dataToShow c) + PAGE_SIZE) (dataTableValue c))
  /\ (forall event c,
        let c' := Component.handleSort event c in
        let sorted := fst (handleSort_rows event c (_tableData c)) in
        dataTableValue c' = sorted
        /\ dataToShow c' = take PAGE_SIZE sorted
        /\ length sorted = length (_tableData c)
        /\ (forall fieldName d rows,
              sort_spec event = Ok (fieldName, d) ->
              array_sort (comparator fieldName d)
                (map json_clone_row (_tableData c)) = Ok rows ->
              sorted = rows /\ rows ≡ₚ map json_clone_row (_tableData c)))
  /\ (forall event c fieldName d (key : row -> Z),
        sort_spec event = Ok (fieldName, d) ->
        forallb json_row (_tableData c) = true ->
        Forall (fun r => resolveFieldValue r fieldName = Ok (VNum (key r)))
          (_tableData c) ->
        let c' := Component.handleSort event c in
        dataTableValue c' ≡ₚ _tableData c
        /\ StronglySorted (fun a b => in_direction d (key a) (key b))
             (dataTableValue c')
        /\ dataToShow c' = take PAGE_SIZE (dataTableValue c'))
  /\ (forall c c', handleSearch c = Ok c' ->
        (searchValue c = "" -> dataTableValue c' = _tableData c)
        /\ (searchValue c <> "" ->
            dataTableSearchResult (formatSearchString (searchValue c))
              (searchableFields c) (_tableData c) = Ok (dataTableValue c'))
        /\ dataTableValue c' `sublist_of` _tableData c
        /\ (searchValue c <> "" ->
            forallb (searchable (searchableFields c)) (_tableData c) = true ->
            forall r, r ∈ dataTableValue c' <->
                      r ∈ _tableData c
                      /\ row_matches (searchValue c) (searchableFields c) r)
        /\ dataToShow c' = take PAGE_SIZE (dataTableValue c'))
  /\ (forall fields,
        let c := set_tableData (NewArray twenty_rows) (initial fields) in
        dataToShow c = take 15 twenty_rows /\
        dataToShow (handleLoadMore c) = twenty_rows /\
        length (dataToShow (handleLoadMore c)) = 20)
  /\ (forall fields,
        let c := handleLoadMore
                   (set_tableData (NewArray ranked_rows) (initial fields)) in
        dataToShow c = ranked_rows /\
        dataToShow
          (Component.handleSort (sort_event (VStr "Rank") (VStr "desc")) c)
        = map ranked_row (rev (seq 6 15)))
  /\ (let c := handleSearchKeyChange "r1"
                 (handleLoadMore
                    (set_tableData (NewArray twenty_rows) (initial ["Id"]))) in
      dataToShow c = twenty_rows /\
      exists c', handleSearch c = Ok c'
                 /\ dataToShow c' = map numbered_row (1 :: seq 10 10)).
Proof.
  split; [|split; [|split; [|split; [|split; [|split; [|split]]]]]].
  - intros c Hc. pose proof (reachable_window c Hc) as Hp.
    split; [exact Hp|now apply prefix_length].
  - intros c Hc. destruct (handleLoadMore_window c) as [-> ->].
    split; [reflexivity|]. apply load_more_prefix. now apply reachable_window.
  - intros event c c' sorted. subst c'.
    rewrite handleSort_window, handleSort_dataset. fold sorted.
    split; [reflexivity|]. split; [reflexivity|].
    split; [apply handleSort_rows_length|].
    intros fieldName d rows Hspec Hsort. subst sorted.
    unfold handleSort_rows, handleSort_rows_try. cbn [fst].
    rewrite Hspec. cbn. rewrite Hsort.
    split; [reflexivity|now apply array_sort_Permutation in Hsort].
  - intros event c fieldName d key Hspec Hjson Hkey c'. subst c'.
    rewrite handleSort_window, handleSort_dataset.
    unfold handleSort_rows, handleSort_rows_try. cbn [fst].
    rewrite Hspec. cbn. rewrite (json_clone_rows _ Hjson).
    destruct (array_sort_numeric fieldName d (_tableData c) key Hkey)
      as (s & -> & Hp & Hs).
    split; [exact Hp|]. split; [exact Hs|reflexivity].
  - intros c c' Hsearch.
    destruct (handleSearch_dataset c c' Hsearch) as [Hall Hfound].
    split; [exact Hall|]. split; [exact Hfound|].
    split; [|split; [|now apply handleSearch_window with c]].
    + destruct (String.eqb_spec (searchValue c) "") as [E|E].
      * now rewrite (Hall E).
      * apply (search_loop_sublist _ _ _ (Hfound E)).
    + intros Hne Hs. specialize (Hfound Hne).
      unfold dataTableSearchResult in Hfound.
      rewrite formatSearchString_idempotent in Hfound.
      destruct (search_loop_matches (searchValue c) (searchableFields c)
                  (_tableData c) Hs) as (res & Hres & Hiff).
      rewrite Hres in Hfound. injection Hfound as <-. exact Hiff.
  - intros fields. repeat split.
  - intros fields. split; vm_compute; reflexivity.
  - split; [vm_compute; reflexivity|].
    set (c := handleSearchKeyChange "r1" _).
    exists (match handleSearch c with Ok c' => c' | Throw _ => c end).
    split; vm_compute; reflexivity.
Qed.

End Window.

Lemma visible_window_prefix_witness :
  let c := @step example_host LoadMore
             (@step example_host (SetTableData (NewArray twenty_rows))
                (initial ["Name"])) in
  let sorting := @step example_host (SetTableData (NewArray amount_rows))
                   (initial ["Id"]) in
  let down := sort_event (VStr "Amount") (VStr "desc") in
  let searching := @searched_state example_host in
  (dataToShow c `prefix_of` dataTableValue c /\
   length (dataToShow c) <= length (dataTableValue c))
  /\ dataToShow (handleLoadMore c)
     = take (length (dataToShow c) + PAGE_SIZE) (dataTableValue c)
  /\ (dataTableValue (@Component.handleSort example_host down sorting)
      ≡ₚ _tableData sorting
      /\ StronglySorted
           (fun a b => in_direction (VStr "desc") (amount_of a) (amount_of b))
           (dataTableValue (@Component.handleSort example_host down sorting))
      /\ dataToShow (@Component.handleSort example_host down sorting)
         = take PAGE_SIZE
             (dataTableValue (@Component.handleSort example_host down sorting)))
  /\ (forall r, r ∈ dataTableValue searching <->
                r ∈ _tableData searching
                /\ row_matches (searchValue searching)
                     (searchableFields searching) r).
Proof.
  assert (Hc : @reachable example_host
                 (@step example_host LoadMore
                    (@step example_host (SetTableData (NewArray twenty_rows))
                       (initial ["Name"])))).
  { do 2 apply reachable_step. apply reachable_initial. }
  assert (Hs : handleSearch (@searched_state example_host)
               = Ok (@searched_state example_host))
    by (vm_compute; reflexivity).
  destruct (@visible_window_prefix example_host)
    as (Hwin & Hmore & _ & Hsort & Hsearch & _).
  split; [exact (Hwin _ Hc)|]. split; [exact (proj2 (Hmore _ Hc))|]. split.
  - apply (Hsort (sort_event (VStr "Amount") (VStr "desc"))
             (@step example_host (SetTableData (NewArray amount_rows))
                (initial ["Id"])) (VStr "Amount") (VStr "desc") amount_of).
    + reflexivity.
    + reflexivity.
    + repeat constructor.
  - destruct (Hsearch _ _ Hs) as (_ & _ & _ & Hiff & _).
    apply Hiff; [discriminate|reflexivity].
Defined.

Section Reconciler.
Context `{Host}.

Lemma maintainSelectionState_elem_of (c : component) (id : value) :
  id ∈ selectedRowsArray (maintainSelectionState c)
  <-> id ∈ selectedRowsArray c /\ id ∈ identifiers (_tableData c).
Proof.
  unfold maintainSelectionState. cbn [selectedRowsArray set_selectedRowsArray].
  rewrite !list_elem_of_In, filter_In, existsb_exists. unfold identifiers.
  rewrite in_map_iff. split.
  - intros [Hin (r & Hr & Heq)]. apply strict_equals_true in Heq. eauto.
  - intros [Hin (r & Heq & Hr)]. split; [exact Hin|].
    exists r. split; [exact Hr|now apply strict_equals_true].
Qed.

Lemma maintainSelectionState_frame (c : component) :
  _tableData (maintainSelectionState c) = _tableData c
  /\ dataTableValue (maintainSelectionState c) = dataTableValue c.
Proof. split; reflexivity. Qed.

Lemma handleSearch_selection (c c' : component) :
  handleSearch c = Ok c' ->
  _tableData c' = _tableData c
  /\ selectedRowsArray c' ⊆ identifiers (_tableData c').
Proof.
  unfold handleSearch. intros Hs.
  assert (exists d, c' = maintainSelectionState
                           (set_dataToShow (slice d 0 PAGE_SIZE)
                              (set_dataTableValue d c))) as [d ->].
  { destruct (negb (searchValue c =? "")).
    - destruct (dataTableSearchResult _ _ _) as [found|e]; cbn in Hs;
        [|discriminate].
      injection Hs as <-. eauto.
    - cbn in Hs. injection Hs as <-. eauto. }
  split; [reflexivity|]. intros id Hid.
  apply maintainSelectionState_elem_of in Hid as [_ Hid]. exact Hid.
Qed.

(** C1 (as amended): after a pass of the reconciler every identifier left
    in the selection is the identifier of a row of the data the component
    was given, [_tableData], and the identifiers left are those of the
    selection that are; so it is after a search, a sort and a load-more,
    which end with such a pass. *)
Theorem reconcile_within_tableData :
  (forall c id,
     id ∈ selectedRowsArray (maintainSelectionState c)
     <-> id ∈ selectedRowsArray c /\ id ∈ identifiers (_tableData c))
  /\ (forall c,
        selectedRowsArray (maintainSelectionState c)
        ⊆ identifiers (_tableData (maintainSelectionState c)))
  /\ (forall c c', handleSearch c = Ok c' ->
        selectedRowsArray c' ⊆ identifiers (_tableData c'))
  /\ (forall event c,
        selectedRowsArray (Component.handleSort event c)
        ⊆ identifiers (_tableData (Component.handleSort event c)))
  /\ (forall c,
        selectedRowsArray (handleLoadMore c)
        ⊆ identifiers (_tableData (handleLoadMore c))).
Proof.
  split; [exact maintainSelectionState_elem_of|].
  split; [|split; [|split]].
  - intros c id Hid. now apply maintainSelectionState_elem_of in Hid as [_ Hid].
  - intros c c' Hs. now apply (handleSearch_selection c c').
  - intros event c id Hid. unfold Component.handleSort in *.
    destruct (handleSort_rows event c (_tableData c)) as [sorted c1].
    now apply maintainSelectionState_elem_of in Hid as [_ Hid].
  - intros c id Hid. unfold handleLoadMore in *.
    now apply maintainSelectionState_elem_of in Hid as [_ Hid].
Qed.

End Reconciler.

(** C1, as stated, fails: the first row is selected, the search keeps the
    second row only, and after the pass that ends the search the
    identifier [R1] is still selected though no row of the working
    dataset has it. *)
Lemma reconcile_counterexample :
  let c := @run example_host select_then_search (initial ["Name"]) in
  dataTableValue c = [beta_row]
  /\ selectedRowsArray c = [VStr "R1"]
  /\ selectedRowsArray (maintainSelectionState c) = [VStr "R1"]
  /\ ~ selectedRowsArray (maintainSelectionState c)
       ⊆ identifiers (dataTableValue (maintainSelectionState c)).
Proof.
  cbn zeta. split; [reflexivity|]. split; [reflexivity|]. split; [reflexivity|].
  intros Hsub. specialize (Hsub (VStr "R1")).
  assert (Hin : VStr "R1" ∈ identifiers [beta_row]).
  { apply Hsub. vm_compute. left. }
  vm_compute in Hin. apply elem_of_cons in Hin as [Heq|Hnil];
    [discriminate|inversion Hnil].
Qed.

Lemma reconcile_within_tableData_witness :
  let c := @run example_host (take 3 select_then_search) (initial ["Name"]) in
  exists c',
    handleSearch c = Ok c' /\
    selectedRowsArray c' ⊆ identifiers (_tableData c').
Proof.
  cbn zeta.
  assert (Hs : handleSearch
                 (@run example_host (take 3 select_then_search) (initial ["Name"]))
               = Ok (@run example_host select_then_search (initial ["Name"])))
    by (vm_compute; reflexivity).
  eexists. split; [exact Hs|].
  exact (proj1 (proj2 (proj2 (@reconcile_within_tableData example_host))) _ _ Hs).
Defined.

(** ** More on the row selection: the other actions, and how they compose *)

Section SelectionActions.

Lemma set_add_elem_of (s : jsset) (v x : value) :
  x ∈ set_add s v <-> x ∈ s \/ x = v.
Proof.
  unfold set_add. destruct (set_has s v) eqn:E.
  - apply set_has_true in E. split; [auto|]. intros [Hx| ->]; assumption.
  - rewrite elem_of_app, list_elem_of_singleton. reflexivity.
Qed.

Lemma set_add_NoDup (s : jsset) (v : value) : NoDup s -> NoDup (set_add s v).
Proof.
  intros Hs. unfold set_add. destruct (set_has s v) eqn:E; [exact Hs|].
  apply NoDup_app. split; [exact Hs|]. split; [|apply NoDup_singleton].
  intros x Hx Hv. apply list_elem_of_singleton in Hv. subst x.
  apply set_has_true in Hx. congruence.
Qed.

Lemma fold_set_add_elem_of {A : Type} (f : A -> value) (l : list A) (s : jsset)
    (x : value) :
  x ∈ fold_left (fun s a => set_add s (f a)) l s <-> x ∈ s \/ x ∈ map f l.
Proof.
  revert s. induction l as [|a l IH]; intros s; cbn.
  - split; [auto|]. intros [Hx|Hx]; [exact Hx|inversion Hx].
  - rewrite IH, set_add_elem_of, elem_of_cons. tauto.
Qed.

Lemma fold_set_add_NoDup {A : Type} (f : A -> value) (l : list A) (s : jsset) :
  NoDup s -> NoDup (fold_left (fun s a => set_add s (f a)) l s).
Proof.
  revert s. induction l as [|a l IH]; intros s Hs; cbn; [exact Hs|].
  apply IH. now apply set_add_NoDup.
Qed.

Lemma set_of_elem_of (l : list value) (x : value) : x ∈ set_of l <-> x ∈ l.
Proof.
  unfold set_of. rewrite (fold_set_add_elem_of (fun v => v)), map_id.
  split; [|auto]. intros [Hx|Hx]; [inversion Hx|exact Hx].
Qed.

Lemma set_of_NoDup (l : list value) : NoDup (set_of l).
Proof. apply (fold_set_add_NoDup (fun v => v)). constructor. Qed.

Lemma set_delete_NoDup (s : jsset) (v : value) : NoDup s -> NoDup (set_delete s v).
Proof.
  intros Hs. unfold set_delete.
  rewrite (filter_test _ (fun x => x <> v)).
  - now apply NoDup_filter.
  - intros x. rewrite negb_true_iff. unfold strict_equals.
    apply bool_decide_eq_false.
Qed.

(** X1: [selectAllRows] replaces the selection by the identifiers of the
    rows of the dataset, each once, and reports the whole dataset as
    selected. *)
Theorem selectAllRows_effect (tc : component) (data : list row) (value : value)
    (batch : list row) :
  let '(r, tc') :=
    Service.handleRowSelection (selectAllRows value batch) tc data in
  NoDup (selectedRows tc')
  /\ (forall id, id ∈ selectedRows tc' <-> id ∈ identifiers data)
  /\ result_selectedRows r = selectedRows tc'
  /\ selectedRecords r = data
  /\ deselectedRecords r = [].
Proof.
  cbn -[set_of]. split; [apply set_of_NoDup|].
  split; [intros id; apply set_of_elem_of|]. auto.
Qed.

(** X2: [rowSelect] adds the identifiers of the rows of the batch to the
    selection and keeps what was selected; the selected records it reports
    are the rows of the dataset whose identifier is one of the batch, not
    the rows selected before. *)
Theorem rowSelect_effect (tc : component) (data : list row) (value : value)
    (batch : list row) :
  let '(r, tc') := Service.handleRowSelection (rowSelect value batch) tc data in
  (forall id, id ∈ selectedRows tc' <->
              id ∈ selectedRows tc \/ id ∈ identifiers batch)
  /\ result_selectedRows r = selectedRows tc'
  /\ selectedRecords r = filter (fun r => row_Id r ∈ identifiers batch) data
  /\ deselectedRecords r = [].
Proof.
  cbn -[set_add row_Id]. split; [|split; [reflexivity|split; [|reflexivity]]].
  - intros id. apply fold_set_add_elem_of.
  - apply filter_test. intros r. rewrite existsb_exists. unfold identifiers.
    rewrite list_elem_of_In, in_map_iff. split.
    + intros (sel & Hin & Heq). apply strict_equals_true in Heq. eauto.
    + intros (sel & Heq & Hin). exists sel. split; [exact Hin|].
      now apply strict_equals_true.
Qed.

Lemma handleRowSelection_unknown (event : selection_event) (tc : component)
    (data : list row) :
  known_action (action event) = false ->
  Service.handleRowSelection event tc data
  = ({| deselectedRecords := []; result_selectedRows := [];
        selectedRecords := [] |}, set_selectedRows [] tc).
Proof.
  unfold known_action, Service.handleRowSelection. intros Hk.
  apply orb_false_iff in Hk as [Hk Hd]. apply orb_false_iff in Hk as [Hk Hs].
  apply orb_false_iff in Hk as [Ha Hda]. now rewrite Ha, Hda, Hs, Hd.
Qed.

(** X3: an action the service has no case for empties the selection, and
    no record is reported selected or deselected. *)
Theorem unknown_action_clears (event : selection_event) (tc : component)
    (data : list row) :
  known_action (action event) = false ->
  let '(r, tc') := Service.handleRowSelection event tc data in
  selectedRows tc' = [] /\ result_selectedRows r = [] /\
  selectedRecords r = [] /\ deselectedRecords r = [].
Proof.
  intros Hk. rewrite (handleRowSelection_unknown event tc data Hk). cbn. auto.
Qed.

(** Whatever the event, the selection stays a set: it comes out of
    [handleRowSelection] without a duplicate when it went in without. *)
Lemma selection_stays_set (event : selection_event) (tc : component)
    (data : list row) :
  NoDup (selectedRows tc) ->
  NoDup (selectedRows (snd (Service.handleRowSelection event tc data)))
  /\ result_selectedRows (fst (Service.handleRowSelection event tc data))
     = selectedRows (snd (Service.handleRowSelection event tc data)).
Proof.
  intros Hs. unfold Service.handleRowSelection.
  repeat match goal with |- context [if ?b then _ else _] => destruct b end;
    cbn -[set_of set_add set_delete]; (split; [|reflexivity]).
  - apply set_of_NoDup.
  - constructor.
  - now apply fold_set_add_NoDup.
  - constructor.
  - now apply set_delete_NoDup.
  - constructor.
Qed.

Lemma find_by_Id_unique (data : list row) (r : row) :
  NoDup (identifiers data) -> r ∈ data -> find_by_Id data (row_Id r) = Some r.
Proof.
  unfold identifiers, find_by_Id. induction data as [|x data IH]; cbn.
  - intros _ Hr. inversion Hr.
  - intros Hnd Hr. apply NoDup_cons in Hnd as [Hx Hnd].
    destruct (strict_equals (row_Id x) (row_Id r)) eqn:E.
    + apply strict_equals_true in E. apply elem_of_cons in Hr as [->|Hr];
        [reflexivity|].
      exfalso. apply Hx. rewrite E. apply list_elem_of_fmap. eauto.
    + apply elem_of_cons in Hr as [->|Hr].
      * unfold strict_equals in E. now rewrite bool_decide_eq_false in E.
      * now apply IH.
Qed.

Lemma fold_set_add_fresh (l : list value) (s : jsset) :
  NoDup (s ++ l) -> fold_left set_add l s = s ++ l.
Proof.
  revert s. induction l as [|x l IH]; intros s Hnd; cbn.
  - now rewrite app_nil_r.
  - assert (Hx : set_has s x = false).
    { apply not_true_iff_false. rewrite set_has_true. intros Hx.
      apply NoDup_app in Hnd as (_ & Hdis & _). apply (Hdis x Hx). left. }
    unfold set_add at 2. rewrite Hx. rewrite IH; rewrite <- app_assoc; auto.
Qed.

(** X4: over a dataset whose rows have distinct identifiers,
    [deselectAllRows] after [selectAllRows] reports every row of the
    dataset deselected, in the order of the dataset, and leaves nothing
    selected. *)
Theorem select_all_then_deselect_all (tc : component) (data : list row)
    (v1 v2 : value) (b1 b2 : list row) :
  NoDup (identifiers data) ->
  let tc1 := snd (Service.handleRowSelection (selectAllRows v1 b1) tc data) in
  let '(r, tc2) := Service.handleRowSelection (deselectAllRows v2 b2) tc1 data in
  deselectedRecords r = map Some data /\ selectedRecords r = [] /\
  selectedRows tc2 = [].
Proof.
  intros Hnd. cbn -[set_of find_by_Id]. split; [|auto].
  unfold set_of, identifiers in *.
  rewrite (fold_set_add_fresh (map row_Id data) [] Hnd). cbn [app].
  rewrite map_map. apply map_ext_in. intros r Hr.
  apply find_by_Id_unique; [exact Hnd|now apply list_elem_of_In].
Qed.

(** X5: deselecting a row right after selecting it, while other rows stay
    checked, gives back the selection there was, when the row was not
    selected before. *)
Theorem select_then_deselect (tc : component) (data : list row) (r b : row)
    (v : value) (batch : list row) :
  row_Id r ∉ selectedRows tc ->
  let tc1 := snd (Service.handleRowSelection (rowSelect v [r]) tc data) in
  let tc2 :=
    snd (Service.handleRowSelection (rowDeselect (row_Id r) (b :: batch)) tc1 data) in
  selectedRows tc2 = selectedRows tc.
Proof.
  intros Hr. cbn -[set_add set_delete row_Id].
  unfold set_add. destruct (set_has (selectedRows tc) (row_Id r)) eqn:E.
  { apply set_has_true in E. contradiction. }
  unfold set_delete. rewrite List.filter_app. cbn.
  assert (Hself : strict_equals (row_Id r) (row_Id r) = true)
    by now apply strict_equals_true.
  rewrite Hself. cbn. rewrite app_nil_r.
  apply forallb_filter_id. apply forallb_forall. intros x Hx.
  apply negb_true_iff. unfold strict_equals. apply bool_decide_eq_false.
  intros ->. apply Hr. now apply list_elem_of_In.
Qed.

End SelectionActions.

Lemma unknown_action_clears_witness :
  let '(r, tc') :=
    Service.handleRowSelection
      {| action := "toggleRow"; config_value := VStr "R1";
         detail_selectedRows := [alpha_row] |}
      (set_selectedRows [VStr "R1"; VStr "R2"] (initial [])) [alpha_row; beta_row] in
  selectedRows tc' = [] /\ result_selectedRows r = [] /\
  selectedRecords r = [] /\ deselectedRecords r = [].
Proof.
  apply (unknown_action_clears
           {| action := "toggleRow"; config_value := VStr "R1";
              detail_selectedRows := [alpha_row] |}
           (set_selectedRows [VStr "R1"; VStr "R2"] (initial []))
           [alpha_row; beta_row]).
  reflexivity.
Defined.

Lemma selection_stays_set_witness :
  NoDup (selectedRows
           (snd (Service.handleRowSelection (rowSelect (VStr "R1") [alpha_row])
                   (set_selectedRows [VStr "R1"; VStr "R2"] (initial []))
                   [alpha_row; beta_row])))
  /\ result_selectedRows
       (fst (Service.handleRowSelection (rowSelect (VStr "R1") [alpha_row])
               (set_selectedRows [VStr "R1"; VStr "R2"] (initial []))
               [alpha_row; beta_row]))
     = selectedRows
         (snd (Service.handleRowSelection (rowSelect (VStr "R1") [alpha_row])
                 (set_selectedRows [VStr "R1"; VStr "R2"] (initial []))
                 [alpha_row; beta_row])).
Proof.
  apply (selection_stays_set (rowSelect (VStr "R1") [alpha_row])
           (set_selectedRows [VStr "R1"; VStr "R2"] (initial []))
           [alpha_row; beta_row]).
  apply (bool_decide_unpack _). vm_compute. exact I.
Defined.

Lemma select_all_then_deselect_all_witness :
  let tc1 :=
    snd (Service.handleRowSelection (selectAllRows VUndefined [])
           (initial []) [alpha_row; beta_row]) in
  let '(r, tc2) :=
    Service.handleRowSelection (deselectAllRows VUndefined []) tc1
      [alpha_row; beta_row] in
  deselectedRecords r = map Some [alpha_row; beta_row] /\ selectedRecords r = [] /\
  selectedRows tc2 = [].
Proof.
  apply (select_all_then_deselect_all (initial []) [alpha_row; beta_row]
           VUndefined VUndefined [] []).
  apply (bool_decide_unpack _). vm_compute. exact I.
Defined.

Lemma select_then_deselect_witness :
  let tc1 :=
    snd (Service.handleRowSelection (rowSelect (VStr "R1") [alpha_row])
           (set_selectedRows [VStr "R2"] (initial [])) [alpha_row; beta_row]) in
  let tc2 :=
    snd (Service.handleRowSelection (rowDeselect (row_Id alpha_row) [beta_row])
           tc1 [alpha_row; beta_row]) in
  selectedRows tc2 = selectedRows (set_selectedRows [VStr "R2"] (initial [])).
Proof.
  apply (select_then_deselect (set_selectedRows [VStr "R2"] (initial []))
           [alpha_row; beta_row] alpha_row beta_row (VStr "R1") []).
  apply (bool_decide_unpack _). vm_compute. exact I.
Defined.

(** ** More on the sort: direction, numeric columns, columns without values *)

Section SortOrder.
Context `{Host}.

(** X6: on two rows that both have a value, a comparison in any direction
    other than [asc] is the ascending comparison of the two rows
    exchanged. *)
Theorem comparator_direction_mirror (fieldName d : value) (a b : row)
    (valueA valueB : value) :
  resolveFieldValue a fieldName = Ok valueA ->
  resolveFieldValue b fieldName = Ok valueB ->
  is_nullish valueA = false -> is_nullish valueB = false ->
  d <> VStr "asc" ->
  comparator fieldName d a b = comparator fieldName (VStr "asc") b a.
Proof.
  intros Ha Hb HA HB Hd.
  rewrite (comparator_Ok _ _ _ _ _ _ Ha Hb), (comparator_Ok _ _ _ _ _ _ Hb Ha).
  f_equal. now apply compare_values_mirror.
Qed.

End SortOrder.

Section SortColumns.
Context `{Host}.

(** X7: rows whose sort key is a number come out of the sort in
    non-decreasing order of the key when the direction is [asc], in
    non-increasing order when it is [desc]; no row is lost or repeated. *)
Theorem sort_numeric_column (fieldName : value) (rows : list row)
    (key : row -> Z) :
  Forall (fun r => resolveFieldValue r fieldName = Ok (VNum (key r))) rows ->
  exists up down,
    array_sort (comparator fieldName (VStr "asc")) rows = Ok up
    /\ up ≡ₚ rows
    /\ StronglySorted (fun a b => (key a <= key b)%Z) up
    /\ array_sort (comparator fieldName (VStr "desc")) rows = Ok down
    /\ down ≡ₚ rows
    /\ StronglySorted (fun a b => (key b <= key a)%Z) down.
Proof.
  intros Hall.
  assert (Hkey : forall r, r ∈ rows ->
                   resolveFieldValue r fieldName = Ok (VNum (key r)))
    by now apply Forall_forall.
  destruct (array_sort_by_key (comparator fieldName (VStr "asc")) key rows)
    as (up & Hup & Hpu & Hsu).
  { intros x y Hx Hy.
    rewrite (comparator_Ok _ _ _ _ _ _ (Hkey x Hx) (Hkey y Hy)).
    now rewrite (proj1 (compare_values_numbers _ _)). }
  destruct (array_sort_by_key (comparator fieldName (VStr "desc"))
              (fun r => (- key r)%Z) rows) as (down & Hdown & Hpd & Hsd).
  { intros x y Hx Hy.
    rewrite (comparator_Ok _ _ _ _ _ _ (Hkey x Hx) (Hkey y Hy)).
    rewrite (proj2 (compare_values_numbers _ _)). f_equal. lia. }
  exists up, down. repeat split; try assumption.
  eapply StronglySorted_ind with (P := StronglySorted _); [..|exact Hsd].
  - constructor.
  - intros a l _ IH Ha. constructor; [exact IH|].
    eapply List.Forall_impl; [|exact Ha]. intros z Hz. cbv beta in *. lia.
Qed.

Lemma array_sort_all_equal {A : Type} (cmp : A -> A -> result Z) (l : list A) :
  (forall x y, x ∈ l -> y ∈ l -> cmp x y = Ok 0%Z) -> array_sort cmp l = Ok l.
Proof.
  induction l as [|x xs IH]; intros Hc; [reflexivity|]. cbn.
  rewrite IH by (intros a b Ha Hb; apply Hc; now right). cbn.
  destruct xs as [|y ys]; [reflexivity|]. cbn.
  rewrite (Hc x y); [reflexivity|left|right; left].
Qed.

(** X8: when no row has a value for the sort key, the sort leaves the rows
    in the order they were in; so it is with a field name that is missing
    or empty, for which [handleSort] returns the copies of the rows in the
    order of the dataset. *)
Theorem sort_without_values :
  (forall (fieldName d : value) (rows : list row),
     forallb (null_valued fieldName) rows = true ->
     array_sort (comparator fieldName d) rows = Ok rows)
  /\ (forall (fieldName d : value) (rows : list row),
        truthy fieldName = false ->
        handleSort_rows_try (sort_event fieldName d) rows
        = Ok (map json_clone_row rows)).
Proof.
  assert (Hgen : forall (fieldName d : value) (rows : list row),
             (forall r, r ∈ rows -> null_valued fieldName r = true) ->
             array_sort (comparator fieldName d) rows = Ok rows).
  { intros fieldName d rows Hnull. apply array_sort_all_equal.
    intros x y Hx Hy. pose proof (Hnull x Hx) as Nx. pose proof (Hnull y Hy) as Ny.
    unfold null_valued in Nx, Ny.
    destruct (resolveFieldValue x fieldName) as [vx|] eqn:Ex; [|discriminate].
    destruct (resolveFieldValue y fieldName) as [vy|] eqn:Ey; [|discriminate].
    rewrite (comparator_Ok _ _ _ _ _ _ Ex Ey). unfold compare_values.
    now rewrite Nx, Ny. }
  split.
  { intros fieldName d rows Hnull. apply Hgen. intros r Hr.
    rewrite forallb_forall in Hnull. apply Hnull. now apply list_elem_of_In. }
  intros fieldName d rows Hf. unfold handleSort_rows_try.
  change (sort_spec (sort_event fieldName d)) with (Ok (fieldName, d)). cbn.
  apply Hgen. intros r _. unfold null_valued, resolveFieldValue. now rewrite Hf.
Qed.

(** X9: on a dataset of JSON data (no [undefined] in any row) the rows
    [handleSort] returns are the rows it was given, each once, whatever the
    event; with a text as field path they are in the order of the sort. *)
Theorem handleSort_rows_permutation (event : value) (tc : component)
    (rows : list row) :
  forallb json_row rows = true ->
  fst (handleSort_rows event tc rows) ≡ₚ rows
  /\ (forall path d, sort_spec event = Ok (VStr path, d) ->
        array_sort (comparator (VStr path) d) rows
        = Ok (fst (handleSort_rows event tc rows))).
Proof.
  intros Hjson. unfold handleSort_rows, handleSort_rows_try. cbn [fst].
  rewrite (json_clone_rows rows Hjson). split.
  - destruct (sort_spec event) as [[fieldName d]|e]; cbn; [|reflexivity].
    destruct (array_sort _ rows) as [sorted|e] eqn:E; [|reflexivity].
    now apply array_sort_Permutation in E.
  - intros path d ->. cbn.
    destruct (array_sort_total (comparator (VStr path) d) rows) as [sorted ->];
      [|reflexivity].
    intros a b. apply comparator_text_total.
Qed.

Lemma split_no_separator (c : ascii) (s : string) :
  has_char c s = false -> split c s = [s].
Proof.
  induction s as [|a s IH]; cbn; [reflexivity|]. intros Hc.
  apply orb_false_iff in Hc as [Ha Hc]. rewrite Ha, (IH Hc). reflexivity.
Qed.

Lemma split_at_separator (c : ascii) (a b : string) :
  has_char c a = false -> split c (a +:+ String c b) = a :: split c b.
Proof.
  induction a as [|x a IH]; intros Hc.
  - rewrite append_empty. cbn. now rewrite Ascii.eqb_refl.
  - cbn in Hc. apply orb_false_iff in Hc as [Hx Hc].
    rewrite append_String. cbn. now rewrite Hx, (IH Hc).
Qed.

(** X10: a field name without a dot reads the property of that name of
    the row; a name of two segments reads the property named by the second
    segment of the value the first one names, when that value is truthy,
    and so reaches into a nested object. *)
Theorem resolveFieldValue_path :
  (forall (record : row) (name : string),
     has_char "." name = false -> name <> "" ->
     resolveFieldValue record (VStr name) = Ok (own_prop record name))
  /\ (forall (record : row) (outer inner : string) (v : value),
        has_char "." outer = false -> has_char "." inner = false ->
        own_prop record outer = v -> truthy v = true ->
        resolveFieldValue record (VStr (outer +:+ String "." inner))
        = Ok (get_prop v inner)).
Proof.
  split.
  - intros record name Hdot Hne. unfold resolveFieldValue.
    assert (Ht : truthy (VStr name) = true) by now apply truthy_VStr.
    now rewrite Ht, (split_no_separator _ _ Hdot).
  - intros record outer inner v Ho Hi Hv Ht. unfold resolveFieldValue.
    assert (Hp : truthy (VStr (outer +:+ String "." inner)) = true).
    { apply truthy_VStr. destruct outer; discriminate. }
    rewrite Hp, (split_at_separator _ _ _ Ho), (split_no_separator _ _ Hi).
    cbn [fold_left]. unfold path_step. cbn [truthy get_prop]. now rewrite Hv, Ht.
Qed.

End SortColumns.

(** Rows with an amount, and a row with a nested account. *)
Lemma comparator_direction_mirror_witness :
  @comparator example_host (VStr "Active") (VStr "DESC") active_row inactive_row
  = @comparator example_host (VStr "Active") (VStr "asc") inactive_row active_row.
Proof.
  apply (@comparator_direction_mirror example_host (VStr "Active") (VStr "DESC")
           active_row inactive_row (VBool true) (VBool false));
    try reflexivity.
  discriminate.
Defined.

Lemma sort_numeric_column_witness :
  exists up down,
    @array_sort row (@comparator example_host (VStr "Amount") (VStr "asc"))
      amount_rows = Ok up
    /\ up ≡ₚ amount_rows
    /\ StronglySorted (fun a b => (amount_of a <= amount_of b)%Z) up
    /\ @array_sort row (@comparator example_host (VStr "Amount") (VStr "desc"))
         amount_rows = Ok down
    /\ down ≡ₚ amount_rows
    /\ StronglySorted (fun a b => (amount_of b <= amount_of a)%Z) down.
Proof.
  apply (@sort_numeric_column example_host (VStr "Amount") amount_rows amount_of).
  repeat constructor.
Defined.

Lemma sort_without_values_witness :
  @array_sort row (@comparator example_host (VStr "Account.Name") (VStr "asc"))
    [unknown_row; active_row] = Ok [unknown_row; active_row]
  /\ @handleSort_rows_try example_host (sort_event (VStr "") (VStr "asc"))
       [beta_row; alpha_row] = Ok (map json_clone_row [beta_row; alpha_row]).
Proof.
  destruct (@sort_without_values example_host) as [Hkeys Hname]. split.
  - apply Hkeys. reflexivity.
  - apply Hname. reflexivity.
Defined.

Lemma handleSort_rows_permutation_witness :
  fst (@handleSort_rows example_host (sort_event (VStr "Amount") (VStr "asc"))
         (initial []) amount_rows) ≡ₚ amount_rows
  /\ (forall path d,
        sort_spec (sort_event (VStr "Amount") (VStr "asc")) = Ok (VStr path, d) ->
        @array_sort row (@comparator example_host (VStr path) d) amount_rows
        = Ok (fst (@handleSort_rows example_host
                     (sort_event (VStr "Amount") (VStr "asc")) (initial [])
                     amount_rows))).
Proof.
  apply (@handleSort_rows_permutation example_host
           (sort_event (VStr "Amount") (VStr "asc")) (initial []) amount_rows).
  reflexivity.
Defined.

Lemma resolveFieldValue_path_witness :
  resolveFieldValue account_row (VStr "Id") = Ok (own_prop account_row "Id")
  /\ resolveFieldValue account_row (VStr ("Account" +:+ String "." "Name"))
     = Ok (get_prop (VObj [("Name", VStr "Initech")]) "Name").
Proof.
  destruct resolveFieldValue_path as [Hone Htwo]. split.
  - apply Hone; [reflexivity|discriminate].
  - apply Htwo; reflexivity.
Defined.

(** ** More on the search: case, errors, the shape of the normalized
    query, pasted text *)

Section QueryCase.

Lemma lower_char_space (c : ascii) : is_space (lower_char c) = is_space c.
Proof. destruct c as [[] [] [] [] [] [] [] []]; reflexivity. Qed.

Lemma lower_char_comma (c : ascii) :
  Ascii.eqb (lower_char c) "," = Ascii.eqb c ",".
Proof. destruct c as [[] [] [] [] [] [] [] []]; reflexivity. Qed.

Lemma skip_spaces_lower (s : string) :
  skip_spaces (toLowerCase s) = toLowerCase (skip_spaces s).
Proof.
  induction s as [|c r IH]; [reflexivity|]. cbn. rewrite lower_char_space.
  destruct (is_space c); [exact IH|reflexivity].
Qed.

Lemma match_separator_lower (s : string) :
  match_separator (toLowerCase s) = option_map toLowerCase (match_separator s).
Proof.
  unfold match_separator. rewrite skip_spaces_lower.
  destruct (skip_spaces s) as [|c r]; [reflexivity|]. cbn.
  rewrite lower_char_comma. destruct (Ascii.eqb c ","); [|reflexivity].
  cbn. now rewrite skip_spaces_lower.
Qed.

Lemma skip_spaces_shorter (s : string) :
  String.length (skip_spaces s) <= String.length s.
Proof.
  induction s as [|a s IH]; cbn; [lia|]. destruct (is_space a); cbn; lia.
Qed.

Lemma match_separator_shorter (s rest : string) :
  match_separator s = Some rest -> String.length rest < String.length s.
Proof.
  unfold match_separator. intros Hm. pose proof (skip_spaces_shorter s) as H1.
  destruct (skip_spaces s) as [|a t]; [discriminate|].
  destruct (Ascii.eqb a ","); [|discriminate].
  injection Hm as <-. pose proof (skip_spaces_shorter t). cbn in H1. lia.
Qed.

Lemma toLowerCase_length (s : string) :
  String.length (toLowerCase s) = String.length s.
Proof. induction s as [|c r IH]; cbn; [reflexivity|now rewrite IH]. Qed.

Lemma replace_separators_lower (s : string) :
  replace_separators (toLowerCase s) = toLowerCase (replace_separators s).
Proof.
  remember (String.length s) as n eqn:Hn. revert s Hn.
  induction n as [n IH] using lt_wf_ind. intros s Hn.
  destruct s as [|c r]; [reflexivity|].
  change (toLowerCase (String c r)) with (String (lower_char c) (toLowerCase r)).
  rewrite !replace_separators_String.
  change (String (lower_char c) (toLowerCase r)) with (toLowerCase (String c r)).
  rewrite match_separator_lower.
  destruct (match_separator (String c r)) as [rest|] eqn:E; cbn.
  - rewrite (IH (String.length rest)); [reflexivity| |reflexivity].
    subst n. now apply match_separator_shorter.
  - rewrite (IH (String.length r)); [reflexivity| |reflexivity].
    subst n. cbn. lia.
Qed.

(** X11: the search does not look at the case of the query: two queries
    with the same lowercase form give the same result, error included. *)
Theorem search_ignores_query_case (q1 q2 : string) (fields : list string)
    (data : list row) :
  toLowerCase q1 = toLowerCase q2 ->
  dataTableSearchResult q1 fields data = dataTableSearchResult q2 fields data.
Proof.
  intros Hq. unfold dataTableSearchResult, formatSearchString.
  now rewrite <- !replace_separators_lower, Hq.
Qed.

End QueryCase.

Section SearchErrors.

Lemma some_throws {A : Type} (f : A -> result bool) (l : list A) (x : A)
    (e : error) :
  x ∈ l -> f x = Throw e ->
  Forall (fun y => f y = Ok false \/ f y = Throw e) l ->
  some f l = Throw e.
Proof.
  intros Hx Hfx Hall. induction Hall as [|y l Hy _ IH]; [inversion Hx|].
  cbn. destruct Hy as [Hy|Hy]; rewrite Hy; cbn; [|reflexivity].
  apply elem_of_cons in Hx as [->|Hx]; [congruence|]. now apply IH.
Qed.

Lemma search_loop_throws (matches : row -> result bool) (data : list row)
    (record : row) :
  record ∈ data -> matches record = Throw TypeError ->
  (forall r e, matches r = Throw e -> e = TypeError) ->
  search_loop matches data = Throw TypeError.
Proof.
  intros Hr Hm Herr. induction data as [|x data IH]; [inversion Hr|]. cbn.
  destruct (matches x) as [m|e] eqn:Ex; cbn.
  - apply elem_of_cons in Hr as [->|Hr]; [congruence|]. now rewrite IH.
  - f_equal. now apply (Herr x).
Qed.

Lemma some_error {A : Type} (f : A -> result bool) (l : list A) (e : error) :
  some f l = Throw e -> exists x, f x = Throw e.
Proof.
  induction l as [|x l IH]; cbn; [discriminate|].
  destruct (f x) as [b|e'] eqn:E; cbn.
  - destruct b; [discriminate|exact IH].
  - intros [= ->]. eauto.
Qed.

Lemma record_matches_error (q : string) (terms fields : list string)
    (record : row) (e : error) :
  record_matches q terms fields record = Throw e -> e = TypeError.
Proof.
  unfold record_matches.
  destruct (some (field_includes record q) fields) as [b|e1] eqn:E1; cbn.
  - destruct b; [discriminate|]. intros Hs.
    apply some_error in Hs as [field Hf]. unfold field_is_term in Hf.
    destruct (negb (truthy (own_prop record field))); [discriminate|].
    destruct (own_prop record field); congruence.
  - intros [= <-]. apply some_error in E1 as [field Hf].
    unfold field_includes in Hf. destruct (own_prop record field); congruence.
Qed.

(** X12: the search throws a TypeError when the dataset has a row with a
    searchable field that holds something else than text (a number, a
    boolean, an object) and with no text in a searchable field that
    contains the query. *)
Theorem search_throws_on_non_text (query : string) (fields : list string)
    (data : list row) (record : row) :
  record ∈ data ->
  searchable fields record = false ->
  forallb (fun field =>
             match own_prop record field with
             | VStr s => negb (includes (toLowerCase s)
                                 (toLowerCase (formatSearchString query)))
             | _ => true
             end) fields = true ->
  dataTableSearchResult query fields data = Throw TypeError.
Proof.
  intros Hr Hbad Hnone. unfold dataTableSearchResult.
  apply (search_loop_throws _ data record Hr);
    [|intros r e; apply record_matches_error].
  unfold record_matches.
  set (q := toLowerCase (formatSearchString query)) in *.
  assert (Hs : some (field_includes record q) fields = Throw TypeError).
  { unfold searchable in Hbad.
    assert (exists field, field ∈ fields /\
                          text_or_absent (own_prop record field) = false)
      as (field & Hin & Hf).
    { clear -Hbad. induction fields as [|f fields IH]; [discriminate|].
      cbn in Hbad. apply andb_false_iff in Hbad as [Hf|Hrest].
      - exists f. split; [left|exact Hf].
      - destruct (IH Hrest) as (g & Hg & Hgf). exists g. split; [now right|exact Hgf]. }
    apply (some_throws _ fields field TypeError Hin).
    - unfold field_includes. destruct (own_prop record field); try reflexivity;
        discriminate.
    - rewrite forallb_forall in Hnone. apply Forall_forall. intros g Hg.
      apply list_elem_of_In in Hg. specialize (Hnone g Hg). unfold field_includes.
      destruct (own_prop record g); auto.
      apply negb_true_iff in Hnone. rewrite Hnone. auto. }
  now rewrite Hs.
Qed.

End SearchErrors.

Section NormalizedShape.

Lemma bare_suffix (pre s : string) : bare (pre +:+ s) = true -> bare s = true.
Proof.
  induction pre as [|c pre IH]; [now rewrite append_empty|].
  rewrite append_String. cbn [bare]. intros Hb.
  apply andb_true_iff in Hb as [_ Hb]. now apply IH.
Qed.

(** X13: in a normalized query no comma has a space before it or after
    it. *)
Theorem formatSearchString_no_space_at_comma (query pre post : string)
    (c : ascii) :
  formatSearchString query = pre +:+ String c (String "," post)
  \/ formatSearchString query = pre +:+ String "," (String c post) ->
  is_space c = false.
Proof.
  unfold formatSearchString.
  pose proof (replace_separators_bare query) as Hb. intros [Heq|Heq];
    rewrite Heq in Hb; apply bare_suffix in Hb; cbn [bare] in Hb;
    apply andb_true_iff in Hb as [Hhead _].
  - destruct (is_space c) eqn:Ec; [|reflexivity].
    rewrite (match_separator_space c _ Ec), match_separator_comma in Hhead.
    apply andb_true_iff in Hhead as [Hc _]. apply Ascii.eqb_eq in Hc. subst c.
    discriminate.
  - rewrite match_separator_comma in Hhead.
    apply andb_true_iff in Hhead as [_ Hns]. now apply negb_true_iff in Hns.
Qed.

Lemma split_length (s : string) :
  length (split "," s) = S (count_commas s).
Proof.
  induction s as [|a s IH]; [reflexivity|]. cbn.
  destruct (Ascii.eqb a ","); cbn; [now rewrite IH|].
  destruct (split "," s) as [|w ws]; [discriminate|]. cbn in *. lia.
Qed.

Lemma skip_spaces_commas (s : string) :
  count_commas (skip_spaces s) = count_commas s.
Proof.
  induction s as [|a s IH]; [reflexivity|]. cbn.
  destruct (is_space a) eqn:Ea; [|reflexivity]. rewrite IH.
  destruct (Ascii.eqb_spec a ","); [subst a; discriminate|reflexivity].
Qed.

Lemma match_separator_commas (s rest : string) :
  match_separator s = Some rest -> count_commas s = S (count_commas rest).
Proof.
  unfold match_separator. intros Hm. rewrite <- (skip_spaces_commas s).
  destruct (skip_spaces s) as [|a t]; [discriminate|].
  destruct (Ascii.eqb a ",") eqn:Ea; [|discriminate].
  injection Hm as <-. cbn. now rewrite Ea, skip_spaces_commas.
Qed.

Lemma match_separator_none_head (c : ascii) (r : string) :
  match_separator (String c r) = None -> Ascii.eqb c "," = false.
Proof.
  destruct (Ascii.eqb_spec c ",") as [->|]; [|reflexivity].
  now rewrite match_separator_comma.
Qed.

Lemma replace_separators_commas (s : string) :
  count_commas (replace_separators s) = count_commas s.
Proof.
  remember (String.length s) as n eqn:Hn. revert s Hn.
  induction n as [n IH] using lt_wf_ind. intros s Hn.
  destruct s as [|c r]; [reflexivity|]. rewrite replace_separators_String.
  destruct (match_separator (String c r)) as [rest|] eqn:E.
  - rewrite (match_separator_commas _ _ E). cbn. f_equal.
    apply (IH (String.length rest)); [|reflexivity].
    subst n. now apply match_separator_shorter.
  - cbn. f_equal. apply (IH (String.length r)); [|reflexivity].
    subst n. cbn. lia.
Qed.

Lemma no_comma_no_match (s : string) :
  has_char "," s = false -> match_separator s = None.
Proof.
  unfold match_separator. induction s as [|a s IH]; [reflexivity|]. cbn.
  intros Hc. apply orb_false_iff in Hc as [Ha Hc].
  destruct (is_space a); [now apply IH|]. now rewrite Ha.
Qed.

(** X14: the normalization keeps the number of comma-separated terms of
    the query, and leaves a query without a comma as it is. *)
Theorem formatSearchString_terms :
  (forall query,
     length (split "," (formatSearchString query)) = length (split "," query))
  /\ (forall query,
        has_char "," query = false -> formatSearchString query = query).
Proof.
  split.
  - intros query. unfold formatSearchString.
    now rewrite !split_length, replace_separators_commas.
  - intros query. unfold formatSearchString.
    induction query as [|a s IH]; [reflexivity|]. intros Hc.
    rewrite replace_separators_String, (no_comma_no_match _ Hc).
    cbn in Hc. apply orb_false_iff in Hc as [_ Hc]. now rewrite IH.
Qed.

End NormalizedShape.

Section Paste.

Lemma split_breaks_clean (after_cr : bool) (s : string) :
  Forall (fun seg => has_char "," seg = false /\ has_char "013" seg = false /\
                     has_char "010" seg = false) (split_breaks after_cr s).
Proof.
  revert after_cr. induction s as [|c r IH]; intros after_cr; cbn.
  - repeat constructor.
  - destruct (after_cr && Ascii.eqb c "010") eqn:E1; [apply IH|].
    destruct (Ascii.eqb c "013") eqn:E2; [constructor; [auto|apply IH]|].
    destruct (Ascii.eqb c "010" || Ascii.eqb c ",") eqn:E3;
      [constructor; [auto|apply IH]|].
    apply orb_false_iff in E3 as [E3 E4].
    specialize (IH false). destruct (split_breaks false r) as [|w ws].
    + constructor; [|constructor]. cbn. now rewrite E2, E3, E4.
    + apply Forall_cons in IH as [(Hc & Hr & Hn) IH].
      constructor; [|exact IH]. cbn. now rewrite E2, E3, E4, Hc, Hr, Hn.
Qed.

Lemma has_char_append (c : ascii) (a b : string) :
  has_char c (a +:+ b) = has_char c a || has_char c b.
Proof.
  induction a as [|x a IH]; [reflexivity|]. rewrite append_String. cbn.
  now rewrite IH, orb_assoc.
Qed.

Lemma has_char_join (c : ascii) (segs : list string) :
  Ascii.eqb "," c = false ->
  Forall (fun seg => has_char c seg = false) segs ->
  has_char c (join "," segs) = false.
Proof.
  intros Hc. induction 1 as [|p rest Hp Hrest IH]; [reflexivity|].
  destruct rest as [|q rest]; [exact Hp|].
  change (join "," (p :: q :: rest)) with (p +:+ "," +:+ join "," (q :: rest)).
  rewrite !has_char_append, Hp, IH.
  change (has_char c ",") with (Ascii.eqb "," c || has_char c "").
  now rewrite Hc.
Qed.

Lemma split_join (segs : list string) :
  segs <> [] -> Forall (fun seg => has_char "," seg = false) segs ->
  split "," (join "," segs) = segs.
Proof.
  intros Hne Hall. induction Hall as [|p rest Hp Hrest IH]; [contradiction|].
  destruct rest as [|q rest]; [now apply split_no_separator|].
  change (join "," (p :: q :: rest))
    with (p +:+ String "," (join "," (q :: rest))).
  rewrite (split_at_separator _ _ _ Hp). f_equal. now apply IH.
Qed.

Lemma substring_empty (n m : nat) : String.substring n m "" = "".
Proof. destruct n, m; reflexivity. Qed.

Lemma append_empty_r (s : string) : s +:+ "" = s.
Proof. induction s as [|c s IH]; [reflexivity|]. now rewrite append_String, IH. Qed.

(** X15: a text of several lines pasted in an empty search box becomes a
    query without line break whose comma-separated terms are the lines and
    the comma-separated pieces of the text, those left out that are empty
    or blank. *)
Theorem searchTextPaste_terms (event : paste_event) :
  target_value event = "" ->
  1 < length (pasted_segments (clipboard_text event)) ->
  split "," (searchTextPaste event) = pasted_segments (clipboard_text event)
  /\ has_char "013" (searchTextPaste event) = false
  /\ has_char "010" (searchTextPaste event) = false.
Proof.
  intros Ht Hlen. unfold searchTextPaste. fold (pasted_segments (clipboard_text event)).
  rewrite Ht, !substring_empty, append_empty, append_empty_r.
  apply Nat.ltb_lt in Hlen. rewrite Hlen.
  assert (Hclean : Forall (fun seg => has_char "," seg = false /\
                                      has_char "013" seg = false /\
                                      has_char "010" seg = false)
                     (pasted_segments (clipboard_text event))).
  { unfold pasted_segments. apply List.Forall_forall. intros seg Hseg.
    apply filter_In in Hseg as [Hseg _].
    pose proof (split_breaks_clean false (clipboard_text event)) as Hall.
    rewrite List.Forall_forall in Hall. now apply Hall. }
  split; [|split].
  - apply split_join.
    + intros Hnil. rewrite Hnil in Hlen. discriminate.
    + eapply List.Forall_impl; [|exact Hclean]. now intros seg (Hc & _).
  - apply has_char_join; [reflexivity|].
    eapply List.Forall_impl; [|exact Hclean]. now intros seg (_ & Hr & _).
  - apply has_char_join; [reflexivity|].
    eapply List.Forall_impl; [|exact Hclean]. now intros seg (_ & _ & Hn).
Qed.

End Paste.

Lemma search_ignores_query_case_witness :
  dataTableSearchResult "ACME, 555-1234" ["Name"; "Phone"] [phone_row; acme_row]
  = dataTableSearchResult "acme, 555-1234" ["Name"; "Phone"] [phone_row; acme_row].
Proof.
  apply (search_ignores_query_case "ACME, 555-1234" "acme, 555-1234"
           ["Name"; "Phone"] [phone_row; acme_row]).
  reflexivity.
Defined.

Lemma search_throws_on_non_text_witness :
  dataTableSearchResult "acme" ["Name"; "Amount"] [acme_row; amount_row "A" 30]
  = Throw TypeError.
Proof.
  apply (search_throws_on_non_text "acme" ["Name"; "Amount"]
           [acme_row; amount_row "A" 30] (amount_row "A" 30)).
  - apply (bool_decide_unpack _). vm_compute. exact I.
  - reflexivity.
  - reflexivity.
Defined.

Lemma formatSearchString_no_space_at_comma_witness :
  formatSearchString " a , b " = " a,b " /\ is_space "a" = false.
Proof.
  split; [reflexivity|].
  apply (formatSearchString_no_space_at_comma " a , b " " " "b " "a").
  left. reflexivity.
Defined.

Lemma formatSearchString_terms_witness :
  length (split "," (formatSearchString " a , b ,c")) = length (split "," " a , b ,c")
  /\ formatSearchString "acme corp" = "acme corp".
Proof.
  destruct formatSearchString_terms as [Hterms Hsame]. split.
  - apply Hterms.
  - apply Hsame. reflexivity.
Defined.

Lemma searchTextPaste_terms_witness :
  split "," (searchTextPaste paste_three_lines) = pasted_segments three_lines
  /\ has_char "013" (searchTextPaste paste_three_lines) = false
  /\ has_char "010" (searchTextPaste paste_three_lines) = false.
Proof.
  apply (searchTextPaste_terms paste_three_lines).
  - reflexivity.
  - vm_compute. lia.
Defined.

(** ** More on the component: the read-only table, paging, and how sort
    and search combine *)

Section ReadOnlyTable.

Lemma filter_twice {A : Type} (f : A -> bool) (l : list A) :
  List.filter f (List.filter f l) = List.filter f l.
Proof.
  induction l as [|x l IH]; [reflexivity|]. cbn.
  destruct (f x) eqn:E; [|exact IH]. cbn. now rewrite E, IH.
Qed.

(** X16: a second pass of the reconciler changes nothing. *)
Theorem maintainSelectionState_idempotent (c : component) :
  maintainSelectionState (maintainSelectionState c) = maintainSelectionState c.
Proof.
  unfold maintainSelectionState, set_selectedRowsArray. cbn. f_equal.
  apply filter_twice.
Qed.

Lemma unique_rows_spec (seen : jsset) (found : list (option row)) :
  NoDup (identifiers (unique_rows seen found))
  /\ (forall r, r ∈ unique_rows seen found ->
                Some r ∈ found /\ row_Id r ∉ seen)
  /\ (forall r, Some r ∈ found -> row_Id r ∉ seen ->
                row_Id r ∈ identifiers (unique_rows seen found)).
Proof.
  unfold identifiers. revert seen.
  induction found as [|[x|] found IH]; intros seen; cbn.
  - split; [constructor|]. split; intros r Hr; inversion Hr.
  - destruct (IH seen) as (Hnd & Hin & Hall).
    destruct (set_has seen (row_Id x)) eqn:E.
    + split; [exact Hnd|]. split.
      * intros r Hr. destruct (Hin r Hr). split; [now right|assumption].
      * intros r Hr Hseen. apply elem_of_cons in Hr as [[= ->]|Hr]; [|auto].
        apply set_has_true in E. contradiction.
    + destruct (IH (set_add seen (row_Id x))) as (Hnd' & Hin' & Hall').
      split; [|split].
      * cbn. apply NoDup_cons. split; [|exact Hnd'].
        intros Hx. apply list_elem_of_fmap in Hx as (r & Heq & Hr).
        destruct (Hin' r Hr) as [_ Hnot]. apply Hnot.
        apply set_add_elem_of. now right.
      * intros r Hr. apply elem_of_cons in Hr as [->|Hr].
        -- split; [left|]. intros Hs. apply set_has_true in Hs. congruence.
        -- destruct (Hin' r Hr) as [Hf Hnot]. split; [now right|].
           intros Hs. apply Hnot. apply set_add_elem_of. now left.
      * intros r Hr Hseen. cbn. apply elem_of_cons.
        destruct (decide (row_Id r = row_Id x)) as [Heq|Hne]; [now left|right].
        apply elem_of_cons in Hr as [[= ->]|Hr]; [contradiction|].
        apply Hall'; [exact Hr|]. intros Hs.
        apply set_add_elem_of in Hs as [Hs|Hs]; contradiction.
  - destruct (IH seen) as (Hnd & Hin & Hall). split; [exact Hnd|]. split.
    + intros r Hr. destruct (Hin r Hr). split; [now right|assumption].
    + intros r Hr Hseen. apply elem_of_cons in Hr as [Hr|Hr]; [discriminate|auto].
Qed.

Lemma find_by_Id_Some (data : list row) (id : value) (r : row) :
  find_by_Id data id = Some r -> r ∈ data /\ row_Id r = id.
Proof.
  unfold find_by_Id. intros Hf. apply find_some in Hf as [Hin Heq].
  split; [now apply list_elem_of_In|now apply strict_equals_true].
Qed.

Lemma find_by_Id_found (data : list row) (id : value) :
  id ∈ identifiers data -> exists r, find_by_Id data id = Some r.
Proof.
  unfold identifiers, find_by_Id. intros Hid.
  apply list_elem_of_fmap in Hid as (r & -> & Hr).
  destruct (List.find _ data) as [r'|] eqn:E; [eauto|].
  apply list_elem_of_In in Hr. apply (find_none _ _ E) in Hr.
  assert (strict_equals (row_Id r) (row_Id r) = true)
    by now apply strict_equals_true.
  congruence.
Qed.

(** X17: the read-only table is given one row for each selected
    identifier that a row of the data has, and no other row: its rows are
    rows of the data, their identifiers are selected and are all distinct;
    its window is the first page. *)
Theorem setDataToReadOnlyTable_rows (c : component) :
  let c' := setDataToReadOnlyTable c in
  NoDup (identifiers (selectedData c'))
  /\ (forall r, r ∈ selectedData c' ->
                r ∈ _tableData c /\ row_Id r ∈ selectedRowsArray c)
  /\ (forall id, id ∈ selectedRowsArray c -> id ∈ identifiers (_tableData c) ->
                 id ∈ identifiers (selectedData c'))
  /\ selectedDataToShowBackup c' = selectedData c'
  /\ selectedDataToShow c' = take PAGE_SIZE (selectedData c').
Proof.
  cbn zeta. unfold setDataToReadOnlyTable. cbn -[unique_rows find_by_Id PAGE_SIZE slice].
  destruct (unique_rows_spec []
              (map (find_by_Id (_tableData c)) (selectedRowsArray c)))
    as (Hnd & Hin & Hall).
  split; [exact Hnd|]. split; [|split; [|split; [reflexivity|apply slice_0]]].
  - intros r Hr. destruct (Hin r Hr) as [Hf _].
    apply list_elem_of_fmap in Hf as (id & Hf & Hid). symmetry in Hf.
    apply find_by_Id_Some in Hf as [Hdata Heq]. split; [exact Hdata|].
    now rewrite Heq.
  - intros id Hid Htable. destruct (find_by_Id_found _ _ Htable) as [r Hf].
    pose proof (find_by_Id_Some _ _ _ Hf) as [_ Heq]. rewrite <- Heq.
    apply Hall; [|intros Hnil; inversion Hnil].
    apply list_elem_of_fmap. exists id. split; [now symmetry|exact Hid].
Qed.

End ReadOnlyTable.

Lemma component_ext (c1 c2 : component) :
  isLazyLoading c1 = isLazyLoading c2 ->
  dataTableValue c1 = dataTableValue c2 ->
  dataToShow c1 = dataToShow c2 ->
  selectedRowsArray c1 = selectedRowsArray c2 ->
  selectedIds c1 = selectedIds c2 ->
  selectedRows c1 = selectedRows c2 ->
  _tableData c1 = _tableData c2 ->
  sortedBy c1 = sortedBy c2 ->
  sortedDirection c1 = sortedDirection c2 ->
  searchValue c1 = searchValue c2 ->
  searchableFields c1 = searchableFields c2 ->
  selectedData c1 = selectedData c2 ->
  selectedDataToShow c1 = selectedDataToShow c2 ->
  selectedDataToShowBackup c1 = selectedDataToShowBackup c2 ->
  isReadonlyLoading c1 = isReadonlyLoading c2 ->
  c1 = c2.
Proof. destruct c1, c2. cbn. intros. subst. reflexivity. Qed.

Section Flow.
Context `{Host}.

(** What [handleSearch] does, in terms of the rows it is to show. *)
Lemma handleSearch_eq (c : component) :
  handleSearch c
  = match search_dataset c with
    | Ok d =>
        Ok (maintainSelectionState
              (set_dataToShow (slice d 0 PAGE_SIZE) (set_dataTableValue d c)))
    | Throw e => Throw e
    end.
Proof.
  unfold handleSearch, search_dataset.
  destruct (negb (searchValue c =? "")); [|reflexivity].
  destruct (dataTableSearchResult _ _ _); reflexivity.
Qed.

Lemma handleSearch_frame (c c' : component) :
  handleSearch c = Ok c' ->
  _tableData c' = _tableData c /\ searchValue c' = searchValue c
  /\ searchableFields c' = searchableFields c
  /\ selectedRows c' = selectedRows c /\ selectedIds c' = selectedIds c
  /\ selectedData c' = selectedData c
  /\ selectedDataToShow c' = selectedDataToShow c
  /\ selectedDataToShowBackup c' = selectedDataToShowBackup c
  /\ sortedBy c' = sortedBy c.
Proof.
  rewrite handleSearch_eq. destruct (search_dataset c) as [d|e]; [|discriminate].
  intros [= <-]. repeat split.
Qed.

Lemma handleSort_rows_component (event : value) (c : component) (rows : list row) :
  exists by_ direction,
    snd (handleSort_rows event c rows) = set_sorted by_ direction c.
Proof.
  unfold handleSort_rows. cbn [snd].
  destruct (sort_spec event) as [[fieldName sortDirection]|e]; [eauto|].
  exists (sortedBy c), (sortedDirection c). now destruct c.
Qed.

Lemma handleSort_eq (event : value) (c : component) :
  exists by_ direction,
    Component.handleSort event c
    = maintainSelectionState
        (set_dataToShow
           (slice (fst (handleSort_rows event c (_tableData c))) 0 PAGE_SIZE)
           (set_dataTableValue (fst (handleSort_rows event c (_tableData c)))
              (set_dataToShow [] (set_sorted by_ direction c))))
    /\ snd (handleSort_rows event c (_tableData c)) = set_sorted by_ direction c.
Proof.
  destruct (handleSort_rows_component event c (_tableData c)) as (b & d & Hc).
  exists b, d. split; [|exact Hc]. unfold Component.handleSort.
  destruct (handleSort_rows event c (_tableData c)) as [sorted c1].
  cbn in Hc. now subst c1.
Qed.

Lemma sort_keeps_fields (event : value) (c : component) :
  _tableData (Component.handleSort event c) = _tableData c
  /\ searchValue (Component.handleSort event c) = searchValue c
  /\ searchableFields (Component.handleSort event c) = searchableFields c
  /\ selectedRows (Component.handleSort event c) = selectedRows c
  /\ selectedIds (Component.handleSort event c) = selectedIds c
  /\ selectedData (Component.handleSort event c) = selectedData c
  /\ selectedDataToShow (Component.handleSort event c) = selectedDataToShow c
  /\ selectedDataToShowBackup (Component.handleSort event c)
     = selectedDataToShowBackup c
  /\ dataTableValue (Component.handleSort event c)
     = fst (handleSort_rows event c (_tableData c)).
Proof.
  destruct (handleSort_eq event c) as (b & d & -> & _). repeat split.
Qed.

Lemma handleSort_rows_json (event : value) (c : component) (rows : list row) :
  forallb json_row rows = true -> fst (handleSort_rows event c rows) ≡ₚ rows.
Proof.
  intros Hjson. unfold handleSort_rows, handleSort_rows_try. cbn [fst].
  rewrite (json_clone_rows rows Hjson).
  destruct (sort_spec event) as [[fieldName d]|e]; cbn; [|reflexivity].
  destruct (array_sort _ rows) as [sorted|e] eqn:E; [|reflexivity].
  now apply array_sort_Permutation in E.
Qed.

(** X18: a sort puts back in the working dataset every row of the data
    the component was given, those a search had filtered out too, while the
    search text stays as it was. *)
Theorem handleSort_discards_filter (event : value) (c : component) :
  forallb json_row (_tableData c) = true ->
  dataTableValue (Component.handleSort event c) ≡ₚ _tableData c
  /\ length (dataTableValue (Component.handleSort event c))
     = length (_tableData c)
  /\ searchValue (Component.handleSort event c) = searchValue c.
Proof.
  intros Hjson.
  destruct (sort_keeps_fields event c) as (_ & Hs & _ & _ & _ & _ & _ & _ & ->).
  split; [now apply handleSort_rows_json|]. split; [|exact Hs].
  apply handleSort_rows_length.
Qed.

(** X19: a search after a sort shows the rows it shows without the sort,
    in the order of the data the component was given: the order of the
    sort is lost, while the column and direction of the sort stay
    recorded. *)
Theorem handleSearch_discards_sort (event : value) (c c1 : component) :
  handleSearch c = Ok c1 ->
  exists c2,
    handleSearch (Component.handleSort event c) = Ok c2
    /\ dataTableValue c2 = dataTableValue c1
    /\ dataToShow c2 = dataToShow c1
    /\ sortedBy c2 = sortedBy (Component.handleSort event c)
    /\ sortedDirection c2 = sortedDirection (Component.handleSort event c).
Proof.
  rewrite !handleSearch_eq.
  destruct (sort_keeps_fields event c) as (Ht & Hv & Hf & _).
  assert (Hd : search_dataset (Component.handleSort event c) = search_dataset c).
  { unfold search_dataset. now rewrite Ht, Hv, Hf. }
  rewrite Hd. destruct (search_dataset c) as [d|e]; [|discriminate].
  intros [= <-]. eexists. split; [reflexivity|]. repeat split.
Qed.

(** X20: running the search again with the same search text changes
    nothing. *)
Theorem handleSearch_idempotent (c c' : component) :
  handleSearch c = Ok c' -> handleSearch c' = Ok c'.
Proof.
  intros Hs. pose proof (handleSearch_frame c c' Hs) as (Ht & Hv & Hf & _).
  rewrite handleSearch_eq in Hs. rewrite handleSearch_eq.
  assert (Hd : search_dataset c' = search_dataset c).
  { unfold search_dataset. now rewrite Ht, Hv, Hf. }
  rewrite Hd. destruct (search_dataset c) as [d|e]; [|discriminate].
  injection Hs as <-. f_equal.
  apply component_ext;
    [reflexivity|reflexivity|reflexivity|exact (filter_twice _ _)
    |reflexivity|reflexivity|reflexivity|reflexivity|reflexivity|reflexivity
    |reflexivity|reflexivity|reflexivity|reflexivity|reflexivity].
Qed.

Lemma handleSort_show (event : value) (c : component) :
  Component.handleSort event c
  = show_rows (fst (handleSort_rows event c (_tableData c)))
      (snd (handleSort_rows event c (_tableData c))).
Proof.
  unfold Component.handleSort, show_rows.
  destruct (handleSort_rows event c (_tableData c)). reflexivity.
Qed.

Lemma show_rows_tableData (rows : list row) (c : component) :
  _tableData (show_rows rows c) = _tableData c.
Proof. reflexivity. Qed.

Lemma show_rows_record (rows : list row) (c : component) :
  show_rows rows c
  = {| isLazyLoading := isLazyLoading c; dataTableValue := rows;
       dataToShow := slice rows 0 PAGE_SIZE;
       selectedRowsArray :=
         List.filter
           (fun rowId =>
              existsb (fun r => strict_equals (row_Id r) rowId) (_tableData c))
           (selectedRowsArray c);
       selectedIds := selectedIds c; selectedRows := selectedRows c;
       _tableData := _tableData c; sortedBy := sortedBy c;
       sortedDirection := sortedDirection c; searchValue := searchValue c;
       searchableFields := searchableFields c; selectedData := selectedData c;
       selectedDataToShow := selectedDataToShow c;
       selectedDataToShowBackup := selectedDataToShowBackup c;
       isReadonlyLoading := isReadonlyLoading c |}.
Proof. reflexivity. Qed.

Lemma show_rows_twice (rows : list row) (c : component) :
  show_rows rows (show_rows rows c) = show_rows rows c.
Proof.
  rewrite !show_rows_record.
  cbn [isLazyLoading dataTableValue dataToShow selectedRowsArray selectedIds
       selectedRows _tableData sortedBy sortedDirection searchValue
       searchableFields selectedData selectedDataToShow
       selectedDataToShowBackup isReadonlyLoading].
  f_equal. apply filter_twice.
Qed.

Lemma show_rows_sorted_twice (rows : list row) (b d : value) (c : component) :
  show_rows rows (set_sorted b d (show_rows rows (set_sorted b d c)))
  = show_rows rows (set_sorted b d c).
Proof.
  rewrite !show_rows_record. unfold set_sorted.
  cbn [isLazyLoading dataTableValue dataToShow selectedRowsArray selectedIds
       selectedRows _tableData sortedBy sortedDirection searchValue
       searchableFields selectedData selectedDataToShow
       selectedDataToShowBackup isReadonlyLoading].
  f_equal. apply filter_twice.
Qed.

(** X21: sorting again by the same column in the same direction changes
    nothing. *)
Theorem handleSort_idempotent (event : value) (c : component) :
  Component.handleSort event (Component.handleSort event c)
  = Component.handleSort event c.
Proof.
  rewrite (handleSort_show event (Component.handleSort event c)).
  rewrite (handleSort_show event c).
  unfold handleSort_rows. cbn [fst snd].
  destruct (sort_spec event) as [[fieldName sortDirection]|e].
  - rewrite show_rows_tableData.
    change (_tableData (set_sorted fieldName sortDirection c))
      with (_tableData c).
    generalize (match handleSort_rows_try event (_tableData c) with
                | Ok sorted => sorted
                | Throw _ => _tableData c
                end).
    intros rows. apply show_rows_sorted_twice.
  - rewrite show_rows_tableData.
    generalize (match handleSort_rows_try event (_tableData c) with
                | Ok sorted => sorted
                | Throw _ => _tableData c
                end).
    intros rows. apply show_rows_twice.
Qed.

End Flow.

Section Invariants.
Context `{Host}.

Lemma service_selection_result (event : selection_event) (tc : component)
    (data : list row) :
  result_selectedRows (fst (Service.handleRowSelection event tc data))
  = selectedRows (snd (Service.handleRowSelection event tc data)).
Proof.
  unfold Service.handleRowSelection.
  repeat match goal with |- context [if ?b then _ else _] => destruct b end;
    reflexivity.
Qed.

Lemma handleRowSelection_settled (event : selection_event) (c : component) :
  exists s,
    fst (Component.handleRowSelection (Some event) c)
    = setDataToReadOnlyTable
        (maintainSelectionState
           (set_selectedRowsArray (set_of (s ++ selectedIds c))
              (set_selectedRows s c)))
    /\ s = selectedRows (snd (Service.handleRowSelection event c (_tableData c))).
Proof.
  unfold Component.handleRowSelection.
  pose proof (service_selection_result event c (_tableData c)) as Hr.
  destruct (service_selection_frame event c (_tableData c)) as [s Hs].
  destruct (Service.handleRowSelection event c (_tableData c)) as [r tc'].
  cbn [fst snd] in Hr, Hs. subst tc'.
  assert (Hs' : result_selectedRows r = s) by exact Hr.
  exists s. split; [|reflexivity]. rewrite Hs'. cbn [fst].
  assert (Hset : set_selectedRows s (set_selectedRows s c) = set_selectedRows s c)
    by (destruct c; reflexivity).
  rewrite Hset. reflexivity.
Qed.

Lemma step_readonly (op : operation) (c : component) :
  selectedDataToShow c `prefix_of` selectedDataToShowBackup c
  /\ length (selectedDataToShowBackup c) = length (selectedData c) ->
  selectedDataToShow (step op c) `prefix_of` selectedDataToShowBackup (step op c)
  /\ length (selectedDataToShowBackup (step op c))
     = length (selectedData (step op c)).
Proof.
  intros Hc.
  destruct op as [v|fields|v|ev| |ev|available readOnly|target|keyCode target
                 |ev| | |ev]; cbn [step].
  - destruct v as [| |rows]; cbn -[unique_rows slice PAGE_SIZE].
    + exact Hc.
    + destruct (length (_tableData c) =? 0)%nat; exact Hc.
    + rewrite slice_0. split; [apply prefix_take|reflexivity].
  - exact Hc.
  - destruct v; exact Hc.
  - destruct ev as [ev|]; [|exact Hc].
    destruct (handleRowSelection_settled ev c) as (s & -> & _).
    cbn -[unique_rows slice PAGE_SIZE]. rewrite slice_0.
    split; [apply prefix_take|reflexivity].
  - exact Hc.
  - destruct (sort_keeps_fields ev c)
      as (_ & _ & _ & _ & _ & -> & -> & -> & _).
    exact Hc.
  - unfold renderedCallback.
    repeat match goal with |- context [if ?b then _ else _] => destruct b end;
      exact Hc.
  - unfold handleSearchKeyChange. destruct (negb (blank target)); exact Hc.
  - unfold handelSearchKey. destruct (keyCode =? ENTER_KEY_CODE)%Z; [|exact Hc].
    destruct (handleSearch _) as [c'|e] eqn:E; [|exact Hc].
    destruct (handleSearch_frame _ _ E) as (_ & _ & _ & _ & _ & -> & -> & -> & _).
    exact Hc.
  - unfold handleSearchTextPaste.
    destruct (handleSearch _) as [c'|e] eqn:E; [|exact Hc].
    destruct (handleSearch_frame _ _ E) as (_ & _ & _ & _ & _ & -> & -> & -> & _).
    exact Hc.
  - destruct (handleSearch c) as [c'|e] eqn:E; [|exact Hc].
    destruct (handleSearch_frame _ _ E) as (_ & _ & _ & _ & _ & -> & -> & -> & _).
    exact Hc.
  - destruct Hc as [Hp Hl]. cbn. split; [|exact Hl].
    rewrite (load_more_prefix _ _ PAGE_SIZE Hp). apply prefix_take.
  - unfold handleShowSelectedTableSort.
    pose proof (handleSort_rows_length ev c (selectedData c)) as Hlen.
    destruct (handleSort_rows_component ev c (selectedData c)) as (b & d & Hc').
    destruct (handleSort_rows ev c (selectedData c)) as [sorted c1].
    cbn [fst snd] in Hlen, Hc'. subst c1. cbn -[slice PAGE_SIZE].
    rewrite slice_0. split; [apply prefix_take|exact Hlen].
Qed.

(** X22: in every state the component can be in, the window of the
    read-only table is a prefix of the rows kept for it, and those are as
    many as the selected rows. *)
Theorem readonly_window_prefix (c : component) :
  reachable c ->
  selectedDataToShow c `prefix_of` selectedDataToShowBackup c
  /\ length (selectedDataToShow c) <= length (selectedData c)
  /\ length (selectedDataToShowBackup c) = length (selectedData c).
Proof.
  intros Hr.
  assert (Hinv : selectedDataToShow c `prefix_of` selectedDataToShowBackup c
                 /\ length (selectedDataToShowBackup c) = length (selectedData c)).
  { induction Hr as [fields|op c _ IH].
    - split; [apply prefix_nil|reflexivity].
    - now apply step_readonly. }
  destruct Hinv as [Hp Hl]. split; [exact Hp|]. split; [|exact Hl].
  rewrite <- Hl. now apply prefix_length.
Qed.

Lemma load_more_S (n : nat) (c : component) :
  load_more (S n) c = handleLoadMore (load_more n c).
Proof. reflexivity. Qed.

(** X23: after [n] load-more the window holds the first
    [|window| + n * PAGE_SIZE] rows of the working dataset, which load-more
    never changes; so it grows until it holds the whole dataset, and stays
    so. *)
Theorem load_more_grows (c : component) (n : nat) :
  dataToShow c `prefix_of` dataTableValue c ->
  dataTableValue (load_more n c) = dataTableValue c
  /\ dataToShow (load_more n c)
     = take (length (dataToShow c) + n * PAGE_SIZE) (dataTableValue c)
  /\ (length (dataTableValue c) <= length (dataToShow c) + n * PAGE_SIZE ->
      dataToShow (load_more n c) = dataTableValue c).
Proof.
  intros Hp.
  assert (Hn : dataTableValue (load_more n c) = dataTableValue c
               /\ dataToShow (load_more n c)
                  = take (length (dataToShow c) + n * PAGE_SIZE)
                      (dataTableValue c)).
  { induction n as [|n [IHd IHs]].
    - split; [reflexivity|]. cbn [load_more Nat.iter]. rewrite Nat.add_0_r.
      destruct Hp as [rest ->]. now rewrite take_app_length.
    - rewrite load_more_S.
      destruct (handleLoadMore_window (load_more n c)) as [-> ->].
      split; [exact IHd|]. rewrite IHd, IHs.
      rewrite load_more_prefix by apply prefix_take.
      rewrite length_take.
      destruct (Nat.le_gt_cases (length (dataToShow c) + n * PAGE_SIZE)
                  (length (dataTableValue c))) as [Hle|Hgt].
      + rewrite Nat.min_l by exact Hle. f_equal. unfold PAGE_SIZE. lia.
      + rewrite Nat.min_r by lia.
        rewrite !take_ge; [reflexivity|..];
          unfold PAGE_SIZE in *; lia. }
  destruct Hn as [Hd Hs]. split; [exact Hd|]. split; [exact Hs|].
  intros Hall. rewrite Hs. now apply take_ge.
Qed.

(** X24: no handler assigns the data the component was given: only the
    assignment of [tableData] by the parent changes [_tableData]; and only a
    selection event changes the Set of selected identifiers. *)
Theorem handlers_frame (op : operation) (c : component) :
  (assigns_tableData op = false -> _tableData (step op c) = _tableData c)
  /\ (is_row_selection op = false -> selectedRows (step op c) = selectedRows c).
Proof.
  destruct op as [v|fields|v|ev| |ev|available readOnly|target|keyCode target
                 |ev| | |ev]; cbn [step assigns_tableData is_row_selection];
    (split; [try discriminate|try discriminate]); intros _.
  - destruct v as [| |rows]; cbn; [reflexivity| |reflexivity].
    destruct (length (_tableData c) =? 0)%nat; reflexivity.
  - reflexivity.
  - reflexivity.
  - destruct v; reflexivity.
  - destruct v; reflexivity.
  - apply handleRowSelection_window.
  - reflexivity.
  - reflexivity.
  - apply sort_keeps_fields.
  - apply sort_keeps_fields.
  - unfold renderedCallback.
    repeat match goal with |- context [if ?b then _ else _] => destruct b end;
      reflexivity.
  - unfold renderedCallback.
    repeat match goal with |- context [if ?b then _ else _] => destruct b end;
      reflexivity.
  - unfold handleSearchKeyChange. destruct (negb (blank target)); reflexivity.
  - unfold handleSearchKeyChange. destruct (negb (blank target)); reflexivity.
  - unfold handelSearchKey. destruct (keyCode =? ENTER_KEY_CODE)%Z; [|reflexivity].
    destruct (handleSearch _) as [c'|e] eqn:E; [|reflexivity].
    now destruct (handleSearch_frame _ _ E) as (-> & _).
  - unfold handelSearchKey. destruct (keyCode =? ENTER_KEY_CODE)%Z; [|reflexivity].
    destruct (handleSearch _) as [c'|e] eqn:E; [|reflexivity].
    now destruct (handleSearch_frame _ _ E) as (_ & _ & _ & -> & _).
  - unfold handleSearchTextPaste.
    destruct (handleSearch _) as [c'|e] eqn:E; [|reflexivity].
    now destruct (handleSearch_frame _ _ E) as (-> & _).
  - unfold handleSearchTextPaste.
    destruct (handleSearch _) as [c'|e] eqn:E; [|reflexivity].
    now destruct (handleSearch_frame _ _ E) as (_ & _ & _ & -> & _).
  - destruct (handleSearch c) as [c'|e] eqn:E; [|reflexivity].
    now destruct (handleSearch_frame _ _ E) as (-> & _).
  - destruct (handleSearch c) as [c'|e] eqn:E; [|reflexivity].
    now destruct (handleSearch_frame _ _ E) as (_ & _ & _ & -> & _).
  - reflexivity.
  - reflexivity.
  - unfold handleShowSelectedTableSort.
    destruct (handleSort_rows_component ev c (selectedData c)) as (b & d & Hc').
    destruct (handleSort_rows ev c (selectedData c)) as [sorted c1].
    cbn [snd] in Hc'. now subst c1.
  - unfold handleShowSelectedTableSort.
    destruct (handleSort_rows_component ev c (selectedData c)) as (b & d & Hc').
    destruct (handleSort_rows ev c (selectedData c)) as [sorted c1].
    cbn [snd] in Hc'. now subst c1.
Qed.

End Invariants.

Section Preselection.
Context `{Host}.

Lemma step_selectedIds (op : operation) (c : component) :
  forallb is_array (selectedIds c) = true ->
  forallb is_array (selectedIds (step op c)) = true.
Proof.
  intros Hc.
  destruct op as [v|fields|v|ev| |ev|available readOnly|target|keyCode target
                 |ev| | |ev]; cbn [step].
  - destruct v as [| |rows]; cbn; [exact Hc| |exact Hc].
    destruct (length (_tableData c) =? 0)%nat; exact Hc.
  - exact Hc.
  - destruct v as [ids|]; [|exact Hc]. cbn.
    rewrite forallb_app, Hc. reflexivity.
  - destruct ev as [ev|]; [|exact Hc].
    destruct (handleRowSelection_settled ev c) as (s & -> & _). exact Hc.
  - exact Hc.
  - now destruct (sort_keeps_fields ev c) as (_ & _ & _ & _ & -> & _).
  - unfold renderedCallback.
    repeat match goal with |- context [if ?b then _ else _] => destruct b end;
      exact Hc.
  - unfold handleSearchKeyChange. destruct (negb (blank target)); exact Hc.
  - unfold handelSearchKey. destruct (keyCode =? ENTER_KEY_CODE)%Z; [|exact Hc].
    destruct (handleSearch _) as [c'|e] eqn:E; [|exact Hc].
    now destruct (handleSearch_frame _ _ E) as (_ & _ & _ & _ & -> & _).
  - unfold handleSearchTextPaste.
    destruct (handleSearch _) as [c'|e] eqn:E; [|exact Hc].
    now destruct (handleSearch_frame _ _ E) as (_ & _ & _ & _ & -> & _).
  - destruct (handleSearch c) as [c'|e] eqn:E; [|exact Hc].
    now destruct (handleSearch_frame _ _ E) as (_ & _ & _ & _ & -> & _).
  - exact Hc.
  - unfold handleShowSelectedTableSort.
    destruct (handleSort_rows_component ev c (selectedData c)) as (b & d & Hc').
    destruct (handleSort_rows ev c (selectedData c)) as [sorted c1].
    cbn [snd] in Hc'. now subst c1.
Qed.

Lemma reachable_selectedIds (c : component) :
  reachable c -> forallb is_array (selectedIds c) = true.
Proof.
  induction 1 as [fields|op c _ IH]; [reflexivity|now apply step_selectedIds].
Qed.

(** X25: after a selection event the array of selected identifiers the
    table is given holds only identifiers of the Set of the component that
    rows of the data have: the identifiers of a pre-selection are not
    carried over unless they are in the Set.  (The identifiers of the rows
    are not arrays.) *)
Theorem preselection_not_carried (c : component) (event : selection_event)
    (id : value) :
  reachable c ->
  forallb (fun r => negb (is_array (row_Id r))) (_tableData c) = true ->
  id ∈ selectedRowsArray (fst (Component.handleRowSelection (Some event) c)) ->
  id ∈ selectedRows (fst (Component.handleRowSelection (Some event) c))
  /\ id ∈ identifiers (_tableData c).
Proof.
  intros Hr Hrows.
  destruct (handleRowSelection_settled event c) as (s & -> & _).
  change (selectedRowsArray (setDataToReadOnlyTable ?x)) with (selectedRowsArray x).
  change (selectedRows (setDataToReadOnlyTable ?x)) with (selectedRows x).
  intros Hid. apply maintainSelectionState_elem_of in Hid as [Hid Htable].
  change (_tableData (set_selectedRowsArray _ (set_selectedRows s c)))
    with (_tableData c) in Htable.
  split; [|exact Htable].
  change (selectedRowsArray (set_selectedRowsArray ?a _)) with a in Hid.
  change (selectedRows (maintainSelectionState
                          (set_selectedRowsArray _ (set_selectedRows s c))))
    with s.
  apply (proj1 (set_of_elem_of _ _)) in Hid.
  apply elem_of_app in Hid as [Hs|Hids]; [exact Hs|].
  exfalso. pose proof (reachable_selectedIds c Hr) as Harr.
  rewrite forallb_forall in Harr. apply list_elem_of_In in Hids.
  specialize (Harr id Hids). unfold identifiers in Htable.
  apply list_elem_of_fmap in Htable as (r & -> & Hin).
  rewrite forallb_forall in Hrows. apply list_elem_of_In in Hin.
  specialize (Hrows r Hin). rewrite Harr in Hrows. discriminate.
Qed.

(** X26: a search text of spaces only is taken for no search text: the
    search then shows all the rows of the data, the first page of them in
    the window. *)
Theorem blank_search_shows_all (target : string) (c : component) :
  blank target = true ->
  let c' := step Search (step (SearchKeyChange target) c) in
  searchValue c' = "" /\ dataTableValue c' = _tableData c
  /\ dataToShow c' = take PAGE_SIZE (_tableData c).
Proof.
  intros Hb. cbn [step]. unfold handleSearchKeyChange. rewrite Hb. cbn [negb].
  rewrite handleSearch_eq. unfold search_dataset.
  change (searchValue (set_searchValue "" c)) with "". cbn [String.eqb negb].
  cbn zeta. repeat split.
Qed.

End Preselection.

Lemma handleSort_discards_filter_witness :
  dataTableValue
    (@Component.handleSort example_host (sort_event (VStr "Name") (VStr "desc"))
       (@searched_state example_host))
  ≡ₚ _tableData (@searched_state example_host)
  /\ length (dataTableValue
               (@Component.handleSort example_host
                  (sort_event (VStr "Name") (VStr "desc"))
                  (@searched_state example_host)))
     = length (_tableData (@searched_state example_host))
  /\ searchValue
       (@Component.handleSort example_host
          (sort_event (VStr "Name") (VStr "desc")) (@searched_state example_host))
     = searchValue (@searched_state example_host).
Proof.
  apply (@handleSort_discards_filter example_host
           (sort_event (VStr "Name") (VStr "desc")) (@searched_state example_host)).
  vm_compute. reflexivity.
Defined.

Lemma handleSearch_discards_sort_witness :
  exists c2,
    handleSearch
      (@Component.handleSort example_host (sort_event (VStr "Name") (VStr "desc"))
         (@searched_state example_host)) = Ok c2
    /\ dataTableValue c2 = dataTableValue (@searched_state example_host)
    /\ dataToShow c2 = dataToShow (@searched_state example_host)
    /\ sortedBy c2
       = sortedBy (@Component.handleSort example_host
                     (sort_event (VStr "Name") (VStr "desc"))
                     (@searched_state example_host))
    /\ sortedDirection c2
       = sortedDirection (@Component.handleSort example_host
                            (sort_event (VStr "Name") (VStr "desc"))
                            (@searched_state example_host)).
Proof.
  apply (@handleSearch_discards_sort example_host
           (sort_event (VStr "Name") (VStr "desc")) (@searched_state example_host)
           (@searched_state example_host)).
  vm_compute. reflexivity.
Defined.

Lemma handleSearch_idempotent_witness :
  handleSearch (@searched_state example_host) = Ok (@searched_state example_host).
Proof.
  apply (handleSearch_idempotent
           (@step example_host (SearchKeyChange "beta")
              (@preselected_state example_host))
           (@searched_state example_host)).
  vm_compute. reflexivity.
Defined.

Lemma readonly_window_prefix_witness :
  let c := @step example_host (RowSelection (Some select_alpha))
             (@preselected_state example_host) in
  selectedDataToShow c `prefix_of` selectedDataToShowBackup c
  /\ length (selectedDataToShow c) <= length (selectedData c)
  /\ length (selectedDataToShowBackup c) = length (selectedData c).
Proof.
  apply (@readonly_window_prefix example_host).
  do 3 apply reachable_step. apply reachable_initial.
Defined.

Lemma load_more_grows_witness :
  let c := set_tableData (NewArray twenty_rows) (initial []) in
  dataTableValue (load_more 1 c) = dataTableValue c
  /\ dataToShow (load_more 1 c)
     = take (length (dataToShow c) + 1 * PAGE_SIZE) (dataTableValue c)
  /\ (length (dataTableValue c) <= length (dataToShow c) + 1 * PAGE_SIZE ->
      dataToShow (load_more 1 c) = dataTableValue c).
Proof.
  apply (load_more_grows (set_tableData (NewArray twenty_rows) (initial [])) 1).
  exists (drop 15 twenty_rows). vm_compute. reflexivity.
Defined.

Lemma handlers_frame_witness :
  _tableData (@step example_host (Sort (sort_event (VStr "Name") (VStr "asc")))
                (@searched_state example_host))
  = _tableData (@searched_state example_host)
  /\ selectedRows (@step example_host Search (@preselected_state example_host))
     = selectedRows (@preselected_state example_host).
Proof.
  split.
  - apply (proj1 (@handlers_frame example_host
                    (Sort (sort_event (VStr "Name") (VStr "asc")))
                    (@searched_state example_host))).
    reflexivity.
  - apply (proj2 (@handlers_frame example_host Search
                    (@preselected_state example_host))).
    reflexivity.
Defined.

Lemma preselection_not_carried_witness :
  VStr "R1"
  ∈ selectedRows
      (fst (Component.handleRowSelection (Some select_alpha)
              (@preselected_state example_host)))
  /\ VStr "R1" ∈ identifiers (_tableData (@preselected_state example_host)).
Proof.
  apply (@preselection_not_carried example_host (@preselected_state example_host)
           select_alpha (VStr "R1")).
  - do 2 apply reachable_step. apply reachable_initial.
  - vm_compute. reflexivity.
  - vm_compute. left.
Defined.

Lemma blank_search_shows_all_witness :
  let c' := @step example_host Search
              (@step example_host (SearchKeyChange "   ")
                 (@searched_state example_host)) in
  searchValue c' = "" /\ dataTableValue c' = _tableData (@searched_state example_host)
  /\ dataToShow c' = take PAGE_SIZE (_tableData (@searched_state example_host)).
Proof.
  apply (@blank_search_shows_all example_host "   " (@searched_state example_host)).
  reflexivity.
Defined.
